(** * The workflow registry and event application of [flow] (workflow.go)

    A shallow embedding of [src/workflow.go]: the [Workflow] record, the
    operations [ApplyEvent], [New], [List], [Get] and [AddNode], and the
    part of [database/sql] they drive (transactions, statements, queries),
    followed by the properties of the specification that concern them. *)

From Stdlib Require Import ZArith List String Ascii Bool Lia.
From Stdlib Require Import Sorting.Sorted Sorting.Permutation.
Import ListNotations.

Local Open Scope string_scope.
Local Open Scope list_scope.
Local Open Scope Z_scope.

(** ** Identifiers

    All identifiers are Go [int64]s.  The code only stores, compares and
    returns them (no arithmetic), so they are integers without wrap-around. *)

Definition DocTypeID := Z.
Definition DocStateID := Z.
Definition DocActionID := Z.
Definition DocEventID := Z.
Definition WorkflowID := Z.
Definition NodeID := Z.
Definition GroupID := Z.

(** [math.MaxInt64] *)
Definition MaxInt64 : Z := 9223372036854775807.

(** [NodeType] is declared in node.go as a string-valued tag. *)
Definition NodeType := string.

(** ** Errors

    [errors.New] and [fmt.Errorf] values are kept with their text, the
    errors of [database/sql] and of the store by name. *)

Inductive error : Type :=
| errors_New (msg : string)
| fmt_Errorf (format : string) (args : list Z)
| sql_ErrTxDone                 (* transaction has already been committed or rolled back *)
| sql_ErrNoRows
| driver_ErrBadConn             (* any connection or statement failure of the store *)
| store_ErrDuplicate (table : string)    (* a uniqueness constraint refused the row *)
| ErrNodeNotFound               (* the two kinds the spec names for node.go *)
| ErrIllegalAction.

Definition errEventNil : error := errors_New "event should be non-nil".
Definition errNoRecipients : error :=
  errors_New "list of recipients should have length > 0".
Definition errAlreadyApplied : error :=
  errors_New "event already applied; nothing to do".
Definition errTypeMismatch (wd ed : DocTypeID) : error :=
  fmt_Errorf
    "document type mismatch -- workflow's document type : %d, event's document type : %d"
    [wd; ed].
Definition errNameEmpty : error := errors_New "name should not be empty".
Definition errNoTransitions : error :=
  errors_New "transitions map should have length > 0".
Definition errOffsetLimit : error :=
  errors_New "offset and limit must be non-negative integers".

(** ** Data model *)

(** [type Workflow struct { id; name; dtype; bstate }] *)
Record Workflow : Type := mkWorkflow {
  w_id : WorkflowID;
  w_name : string;
  w_dtype : DocTypeID;
  w_bstate : DocStateID
}.

Definition ID (w : Workflow) : WorkflowID := w_id w.
Definition Name (w : Workflow) : string := w_name w.
Definition DocType (w : Workflow) : DocTypeID := w_dtype w.
Definition BeginState (w : Workflow) : DocStateID := w_bstate w.

(** Modelled from the spec: the status of a [DocEvent] (event.go is not under
    src/).  "a status in {Created, Applied}"; the code names only
    [EventStatusApplied]. *)
Inductive EventStatus : Type := EventStatusCreated | EventStatusApplied.

Definition EventStatus_eqb (a b : EventStatus) : bool :=
  match a, b with
  | EventStatusCreated, EventStatusCreated => true
  | EventStatusApplied, EventStatusApplied => true
  | _, _ => false
  end.

(** Modelled from the spec: [DocEvent] (event.go is not under src/).  "id,
    document type, the state at which it is being applied, the action it
    carries, and a status".  workflow.go reads [status], [dtype], [state]. *)
Record DocEvent : Type := mkDocEvent {
  ev_id : DocEventID;
  ev_dtype : DocTypeID;
  ev_state : DocStateID;
  ev_action : DocActionID;
  ev_status : EventStatus
}.

(** Rows of the three definition tables and of the two tables event
    application writes to. *)
Record NodeRow : Type := mkNodeRow {
  n_id : NodeID;
  n_dtype : DocTypeID;
  n_state : DocStateID;
  n_wid : WorkflowID;
  n_name : string;
  n_type : NodeType
}.

Record TransitionRow : Type := mkTransitionRow {
  t_dtype : DocTypeID;
  t_from : DocStateID;
  t_action : DocActionID;
  t_to : DocStateID
}.

Record MessageRow : Type := mkMessageRow {
  m_event : DocEventID;
  m_state : DocStateID;
  m_group : GroupID
}.

Record Tables : Type := mkTables {
  wf_workflows : list Workflow;
  wf_workflow_nodes : list NodeRow;
  wf_docstate_transitions : list TransitionRow;
  wf_docevents_applied : list DocEventID;
  wf_messages : list MessageRow
}.

Definition no_tables : Tables := mkTables [] [] [] [] [].

(** ** Statements

    The SQL texts of workflow.go with their arguments, and the two
    statements event application issues. *)
Inductive Stmt : Type :=
| InsertWorkflow (name : string) (dtype : DocTypeID) (state : DocStateID)
    (* INSERT INTO wf_workflows(name, doctype_id, docstate_id) VALUES(?, ?, ?) *)
| InsertNode (dtype : DocTypeID) (state : DocStateID) (wid : WorkflowID)
             (name : string) (ntype : NodeType)
    (* INSERT INTO wf_workflow_nodes(doctype_id, docstate_id, workflow_id, name, type) *)
| InsertTransition (dtype : DocTypeID) (from : DocStateID)
                   (action : DocActionID) (to : DocStateID)
    (* INSERT INTO wf_docstate_transitions(doctype_id, from_state_id, docaction_id, to_state_id) *)
| MarkEventApplied (event : DocEventID)
| InsertMessage (event : DocEventID) (state : DocStateID) (group : GroupID).

Inductive Query : Type :=
| SelectWorkflows (limit offset : Z)
    (* SELECT id, name, doctype_id, docstate_id FROM wf_workflows ORDER BY id LIMIT ? OFFSET ? *)
| SelectWorkflow (id : WorkflowID)
    (* SELECT name, doctype_id, docstate_id FROM wf_workflows WHERE id = ? *)
| SelectNode (dtype : DocTypeID) (state : DocStateID).

(** The next value of an auto-increment key: one more than the largest
    key in use (keys start at 1). *)
Definition next_id (ids : list Z) : Z := fold_right Z.max 0 ids + 1.

(** Modelled from the spec: the uniqueness constraints of the schema (the
    SQL schema is not under src/).  "workflows(id, name UNIQUE, ...)",
    "workflow_nodes ... uniqueness required on (document_type, state)",
    "transitions ... uniqueness required on (document_type, from_state,
    action)". *)
Definition workflow_name_taken (nm : string) (T : Tables) : bool :=
  existsb (fun w => String.eqb (w_name w) nm) (wf_workflows T).

Definition node_key_taken (dt : DocTypeID) (st : DocStateID) (T : Tables) : bool :=
  existsb (fun n => (n_dtype n =? dt) && (n_state n =? st)) (wf_workflow_nodes T).

Definition transition_key_taken (dt : DocTypeID) (st : DocStateID)
           (da : DocActionID) (T : Tables) : bool :=
  existsb (fun t => (t_dtype t =? dt) && (t_from t =? st) && (t_action t =? da))
          (wf_docstate_transitions T).

(** One statement against one version of the tables: the new tables, the
    key of the inserted row ([LastInsertId]) and the store's verdict.  A
    refused statement leaves the tables as they were. *)
Definition run_stmt (q : Stmt) (T : Tables) : Tables * Z * option error :=
  match q with
  | InsertWorkflow nm dt st =>
      if workflow_name_taken nm T then (T, 0, Some (store_ErrDuplicate "wf_workflows"))
      else
        let k := next_id (map w_id (wf_workflows T)) in
        (mkTables (wf_workflows T ++ [mkWorkflow k nm dt st]) (wf_workflow_nodes T)
                  (wf_docstate_transitions T) (wf_docevents_applied T) (wf_messages T),
         k, None)
  | InsertNode dt st wid nm nt =>
      if node_key_taken dt st T then (T, 0, Some (store_ErrDuplicate "wf_workflow_nodes"))
      else
        let k := next_id (map n_id (wf_workflow_nodes T)) in
        (mkTables (wf_workflows T) (wf_workflow_nodes T ++ [mkNodeRow k dt st wid nm nt])
                  (wf_docstate_transitions T) (wf_docevents_applied T) (wf_messages T),
         k, None)
  | InsertTransition dt st da ds =>
      if transition_key_taken dt st da T
      then (T, 0, Some (store_ErrDuplicate "wf_docstate_transitions"))
      else
        (mkTables (wf_workflows T) (wf_workflow_nodes T)
                  (wf_docstate_transitions T ++ [mkTransitionRow dt st da ds])
                  (wf_docevents_applied T) (wf_messages T),
         0, None)
  | MarkEventApplied e =>
      (mkTables (wf_workflows T) (wf_workflow_nodes T) (wf_docstate_transitions T)
                (wf_docevents_applied T ++ [e]) (wf_messages T),
       0, None)
  | InsertMessage e st g =>
      (mkTables (wf_workflows T) (wf_workflow_nodes T) (wf_docstate_transitions T)
                (wf_docevents_applied T) (wf_messages T ++ [mkMessageRow e st g]),
       0, None)
  end.

(** ** [strings.TrimSpace]

    Go strings are byte strings holding UTF-8.  [TrimSpace] removes the
    leading and the trailing runes for which [unicode.IsSpace] holds:
    U+0009..U+000D, U+0020, U+0085, U+00A0, U+1680, U+2000..U+200A, U+2028,
    U+2029, U+202F, U+205F and U+3000, matched here by their encodings. *)

Definition asciiSpace (c : ascii) : bool :=
  let b := N_of_ascii c in
  ((9 <=? b) && (b <=? 13) || (b =? 32))%N.

Definition space2 (c0 c1 : ascii) : bool :=
  let b0 := N_of_ascii c0 in
  let b1 := N_of_ascii c1 in
  ((b0 =? 194) && ((b1 =? 133) || (b1 =? 160)))%N.

Definition space3 (c0 c1 c2 : ascii) : bool :=
  let b0 := N_of_ascii c0 in
  let b1 := N_of_ascii c1 in
  let b2 := N_of_ascii c2 in
  ((b0 =? 225) && (b1 =? 154) && (b2 =? 128)
   || (b0 =? 226) && (b1 =? 128)
      && ((128 <=? b2) && (b2 <=? 138) || (b2 =? 168) || (b2 =? 169) || (b2 =? 175))
   || (b0 =? 226) && (b1 =? 129) && (b2 =? 159)
   || (b0 =? 227) && (b1 =? 128) && (b2 =? 128))%N.

Fixpoint trimLeft (s : string) : string :=
  match s with
  | EmptyString => EmptyString
  | String c0 r0 =>
      if asciiSpace c0 then trimLeft r0
      else match r0 with
           | EmptyString => s
           | String c1 r1 =>
               if space2 c0 c1 then trimLeft r1
               else match r1 with
                    | EmptyString => s
                    | String c2 r2 => if space3 c0 c1 c2 then trimLeft r2 else s
                    end
           end
  end.

(** The same scan from the end, on the reversed string: the last byte of a
    rune comes first. *)
Fixpoint trimLeftRev (s : string) : string :=
  match s with
  | EmptyString => EmptyString
  | String c2 r0 =>
      if asciiSpace c2 then trimLeftRev r0
      else match r0 with
           | EmptyString => s
           | String c1 r1 =>
               if space2 c1 c2 then trimLeftRev r1
               else match r1 with
                    | EmptyString => s
                    | String c0 r2 => if space3 c0 c1 c2 then trimLeftRev r2 else s
                    end
           end
  end.

Definition string_rev (s : string) : string :=
  string_of_list_ascii (rev (list_ascii_of_string s)).

Definition trimRight (s : string) : string := string_rev (trimLeftRev (string_rev s)).

Definition TrimSpace (s : string) : string := trimRight (trimLeft s).

(** ** [ORDER BY id LIMIT ? OFFSET ?] *)

Fixpoint insert_by_id (w : Workflow) (l : list Workflow) : list Workflow :=
  match l with
  | [] => [w]
  | x :: r => if w_id w <? w_id x then w :: l else x :: insert_by_id w r
  end.

Definition order_by_id (l : list Workflow) : list Workflow :=
  fold_left (fun acc w => insert_by_id w acc) l [].

(** [OFFSET n]: the first [n] rows are skipped. *)
Fixpoint dropZ {A : Type} (n : Z) (l : list A) : list A :=
  match l with
  | [] => []
  | x :: r => if n <=? 0 then l else dropZ (n - 1) r
  end.

(** [LIMIT n]: at most [n] rows are returned. *)
Fixpoint takeZ {A : Type} (n : Z) (l : list A) : list A :=
  match l with
  | [] => []
  | x :: r => if n <=? 0 then [] else x :: takeZ (n - 1) r
  end.

Definition select_workflows (limit offset : Z) (T : Tables) : list Workflow :=
  takeZ limit (dropZ offset (order_by_id (wf_workflows T))).

(** ** The world: the store, its transactions, and the events in memory *)

Definition TxID := nat.

(** Calls into [database/sql], in the order they were made. *)
Inductive Op : Type :=
| OpBegin (t : TxID)
| OpBeginFailed
| OpExec (t : TxID) (q : Stmt)
| OpCommit (t : TxID)
| OpRollback (t : TxID)
| OpQuery (q : Query).

(** [committed]: what is durable.  [open_txs]: the open transactions, each
    with the tables as its statements have left them.  [faults]: for each
    coming call into the store, whether the connection fails there (none
    left: no failure).  [heap]: the [DocEvent] objects, addressed by
    [*DocEvent] pointers. *)
Record World : Type := mkWorld {
  committed : Tables;
  open_txs : list (TxID * Tables);
  next_tx : TxID;
  faults : list bool;
  trace : list Op;
  heap : list DocEvent
}.

Definition set_committed (T : Tables) (s : World) : World :=
  mkWorld T (open_txs s) (next_tx s) (faults s) (trace s) (heap s).
Definition set_open_txs (o : list (TxID * Tables)) (s : World) : World :=
  mkWorld (committed s) o (next_tx s) (faults s) (trace s) (heap s).
Definition set_next_tx (n : TxID) (s : World) : World :=
  mkWorld (committed s) (open_txs s) n (faults s) (trace s) (heap s).
Definition set_faults (f : list bool) (s : World) : World :=
  mkWorld (committed s) (open_txs s) (next_tx s) f (trace s) (heap s).
Definition set_trace (t : list Op) (s : World) : World :=
  mkWorld (committed s) (open_txs s) (next_tx s) (faults s) t (heap s).
Definition set_heap (h : list DocEvent) (s : World) : World :=
  mkWorld (committed s) (open_txs s) (next_tx s) (faults s) (trace s) h.

Fixpoint find_tx (t : TxID) (o : list (TxID * Tables)) : option Tables :=
  match o with
  | [] => None
  | (t', T) :: r => if Nat.eqb t t' then Some T else find_tx t r
  end.

Fixpoint remove_tx (t : TxID) (o : list (TxID * Tables)) : list (TxID * Tables) :=
  match o with
  | [] => []
  | (t', T) :: r => if Nat.eqb t t' then remove_tx t r else (t', T) :: remove_tx t r
  end.

Fixpoint update_tx (t : TxID) (T : Tables) (o : list (TxID * Tables))
  : list (TxID * Tables) :=
  match o with
  | [] => []
  | (t', T') :: r => if Nat.eqb t t' then (t', T) :: r else (t', T') :: update_tx t T r
  end.

(** ** Computations: state passing, with Go's run-time panic *)

Inductive Outcome (A : Type) : Type :=
| Ret (a : A)
| Panic.
Arguments Ret {A} a.
Arguments Panic {A}.

Definition M (A : Type) : Type := World -> World * Outcome A.

Definition ret {A : Type} (a : A) : M A := fun s => (s, Ret a).

Definition panic {A : Type} : M A := fun s => (s, Panic).

Definition bind {A B : Type} (m : M A) (k : A -> M B) : M B :=
  fun s =>
    match m s with
    | (s', Ret a) => k a s'
    | (s', Panic) => (s', Panic)
    end.

(** [defer d]: [d] runs when the rest of the function is over, whether it
    returned or panicked; what [d] returns is dropped. *)
Definition defer {A B : Type} (d : M B) (body : M A) : M A :=
  fun s => let (s', r) := body s in (fst (d s'), r).

Declare Scope go_scope.
Delimit Scope go_scope with go.
Notation "x <- c1 ;; c2" := (bind c1 (fun x => c2))
  (at level 61, c1 at next level, right associativity) : go_scope.
Notation "' pat <- c1 ;; c2" := (bind c1 (fun x => match x with pat => c2 end))
  (at level 61, pat pattern, c1 at next level, right associativity) : go_scope.
Local Open Scope go_scope.

Definition gets {A : Type} (f : World -> A) : M A := fun s => (s, Ret (f s)).
Definition modify (f : World -> World) : M unit := fun s => (f s, Ret tt).

Definition log (op : Op) : M unit := modify (fun s => set_trace (trace s ++ [op]) s).

(** Does the store fail at this call? *)
Definition fault : M bool :=
  fun s =>
    match faults s with
    | [] => (s, Ret false)
    | b :: fs => (set_faults fs s, Ret b)
    end.

(** ** [database/sql] *)

(** [sql.Result], as far as the code reads it. *)
Record Result : Type := mkResult { lastInsertId : Z }.

(** [db.Begin()] *)
Definition DB_Begin : M (option TxID * option error) :=
  f <- fault ;;
  if f : bool then
    _ <- log OpBeginFailed ;;
    ret (None, Some driver_ErrBadConn)
  else
    t <- gets next_tx ;;
    T <- gets committed ;;
    _ <- modify (fun s => set_next_tx (S t) (set_open_txs ((t, T) :: open_txs s) s)) ;;
    _ <- log (OpBegin t) ;;
    ret (Some t, None).

(** [tx.Exec(q, args...)].  A method of [*sql.Tx] called on a nil pointer
    dereferences it: a run-time panic. *)
Definition Tx_Exec (tx : option TxID) (q : Stmt) : M (option Result * option error) :=
  match tx with
  | None => panic
  | Some t =>
      _ <- log (OpExec t q) ;;
      o <- gets (fun s => find_tx t (open_txs s)) ;;
      match o with
      | None => ret (None, Some sql_ErrTxDone)
      | Some T =>
          f <- fault ;;
          if f : bool then ret (None, Some driver_ErrBadConn)
          else
            match run_stmt q T with
            | (_, _, Some e) => ret (None, Some e)
            | (T', k, None) =>
                _ <- modify (fun s => set_open_txs (update_tx t T' (open_txs s)) s) ;;
                ret (Some (mkResult k), None)
            end
      end
  end.

(** [res.LastInsertId()] *)
Definition Result_LastInsertId (res : option Result) : M (Z * option error) :=
  match res with
  | None => panic
  | Some r =>
      f <- fault ;;
      if f : bool then ret (0, Some driver_ErrBadConn) else ret (lastInsertId r, None)
  end.

(** [tx.Commit()]: the transaction is over afterwards, whether the store
    accepted it or not. *)
Definition Tx_Commit (tx : option TxID) : M (option error) :=
  match tx with
  | None => panic
  | Some t =>
      _ <- log (OpCommit t) ;;
      o <- gets (fun s => find_tx t (open_txs s)) ;;
      match o with
      | None => ret (Some sql_ErrTxDone)
      | Some T =>
          f <- fault ;;
          if f : bool then
            _ <- modify (fun s => set_open_txs (remove_tx t (open_txs s)) s) ;;
            ret (Some driver_ErrBadConn)
          else
            _ <- modify (fun s => set_committed T (set_open_txs (remove_tx t (open_txs s)) s)) ;;
            ret None
      end
  end.

(** [tx.Rollback()] *)
Definition Tx_Rollback (tx : option TxID) : M (option error) :=
  match tx with
  | None => panic
  | Some t =>
      _ <- log (OpRollback t) ;;
      o <- gets (fun s => find_tx t (open_txs s)) ;;
      match o with
      | None => ret (Some sql_ErrTxDone)
      | Some _ =>
          f <- fault ;;
          _ <- modify (fun s => set_open_txs (remove_tx t (open_txs s)) s) ;;
          ret (if f : bool then Some driver_ErrBadConn else None)
      end
  end.

(** [db.Query(q, limit, offset)] for the listing: the rows the cursor will
    deliver. *)
Definition DB_Query (limit offset : Z) : M (option (list Workflow) * option error) :=
  _ <- log (OpQuery (SelectWorkflows limit offset)) ;;
  f <- fault ;;
  if f : bool then ret (None, Some driver_ErrBadConn)
  else
    T <- gets committed ;;
    ret (Some (select_workflows limit offset T), None).

(** [rows.Scan(&elem.id, &elem.name, &elem.dtype, &elem.bstate)] *)
Definition Rows_Scan (row : Workflow) : M (Workflow * option error) :=
  f <- fault ;;
  if f : bool then ret (mkWorkflow 0 EmptyString 0 0, Some driver_ErrBadConn)
  else ret (row, None).

(** [rows.Err()] *)
Definition Rows_Err : M (option error) :=
  f <- fault ;;
  ret (if f : bool then Some driver_ErrBadConn else None).

(** [db.QueryRow(q, id)] followed by [row.Scan(...)] *)
Definition DB_QueryRow_Scan (id : WorkflowID) : M (Workflow * option error) :=
  _ <- log (OpQuery (SelectWorkflow id)) ;;
  f <- fault ;;
  if f : bool then ret (mkWorkflow 0 EmptyString 0 0, Some driver_ErrBadConn)
  else
    T <- gets committed ;;
    match find (fun w => w_id w =? id) (wf_workflows T) with
    | None => ret (mkWorkflow 0 EmptyString 0 0, Some sql_ErrNoRows)
    | Some w => ret (mkWorkflow 0 (w_name w) (w_dtype w) (w_bstate w), None)
    end.

(** Reading and writing through a [*DocEvent]. *)
Definition EventPtr := nat.

Definition load (p : EventPtr) : M DocEvent :=
  fun s =>
    match nth_error (heap s) p with
    | Some e => (s, Ret e)
    | None => (s, Panic)
    end.

Fixpoint set_nth {A : Type} (n : nat) (x : A) (l : list A) : list A :=
  match l, n with
  | [], _ => []
  | _ :: r, O => x :: r
  | y :: r, S n' => y :: set_nth n' x r
  end.

Definition store (p : EventPtr) (e : DocEvent) : M unit :=
  modify (fun s => set_heap (set_nth p e (heap s)) s).

(** ** The operations of workflow.go *)

(** The prologue shared, word for word, by [ApplyEvent], [New] and [AddNode]:
<<
    var tx *sql.Tx
    if otx == nil {
        tx, err := db.Begin()
        if err != nil { return 0, err }
        defer tx.Rollback()
    } else {
        tx = otx
    }
>>
    In the first branch [tx, err := ...] declares two new variables of that
    block: the transaction just begun is bound to the inner [tx] (here
    [tx']), which the deferred call captures, and the function's own [tx],
    the one the rest of the body uses, keeps its zero value nil. *)
Definition tx_prologue {A : Type} (otx : option TxID) (fail : error -> A)
           (rest : option TxID -> M A) : M A :=
  let tx : option TxID := None in
  match otx with
  | None =>
      '(tx', err) <- DB_Begin ;;
      match err with
      | Some e => ret (fail e)
      | None => defer (Tx_Rollback tx') (rest tx)
      end
  | Some _ =>
      let tx := otx in
      rest tx
  end.

(** The epilogue shared by the three:
<<
    if otx == nil {
        err = tx.Commit()
        if err != nil { return 0, err }
    }
    return v, nil
>> *)
Definition tx_epilogue (otx tx : option TxID) (v : Z) : M (Z * option error) :=
  match otx with
  | None =>
      err <- Tx_Commit tx ;;
      match err with
      | Some e => ret (0, Some e)
      | None => ret (v, None)
      end
  | Some _ => ret (v, None)
  end.

(** [func (ws *_Workflows) New(otx, name, dtype, state) (WorkflowID, error)] *)
Definition New (otx : option TxID) (name : string) (dtype : DocTypeID)
           (state : DocStateID) : M (WorkflowID * option error) :=
  let name := TrimSpace name in
  if String.eqb name EmptyString then ret (0, Some errNameEmpty)
  else
    tx_prologue otx (fun e => (0, Some e)) (fun tx =>
      '(res, err) <- Tx_Exec tx (InsertWorkflow name dtype state) ;;
      match err with
      | Some e => ret (0, Some e)
      | None =>
          '(id, err) <- Result_LastInsertId res ;;
          match err with
          | Some e => ret (0, Some e)
          | None => tx_epilogue otx tx id
          end
      end).

(** The loop of [List]: [for rows.Next() { rows.Scan(...); ary = append(ary,
    &elem) }], then [rows.Err()]. *)
Fixpoint scan_rows (rows ary : list Workflow) : M (option (list Workflow) * option error) :=
  match rows with
  | [] =>
      err <- Rows_Err ;;
      match err with
      | Some e => ret (None, Some e)
      | None => ret (Some ary, None)
      end
  | r :: rest =>
      '(elem, err) <- Rows_Scan r ;;
      match err with
      | Some e => ret (None, Some e)
      | None => scan_rows rest (ary ++ [elem])
      end
  end.

(** [func (ws *_Workflows) List(offset, limit int64) ([]*Workflow, error)].
    A nil slice is [None]; [make([]*Workflow, 0, 10)] is [Some []]. *)
Definition List (offset limit : Z) : M (option (list Workflow) * option error) :=
  if (offset <? 0) || (limit <? 0) then ret (None, Some errOffsetLimit)
  else
    let limit := if limit =? 0 then MaxInt64 else limit in
    '(rows, err) <- DB_Query limit offset ;;
    match err with
    | Some e => ret (None, Some e)
    | None =>
        match rows with
        | None => panic
        | Some rows => scan_rows rows []
        end
    end.

(** [func (ws *_Workflows) Get(id WorkflowID) (w *Workflow, err error)] *)
Definition Get (id : WorkflowID) : M (option Workflow * option error) :=
  '(elem, err) <- DB_QueryRow_Scan id ;;
  match err with
  | Some e => ret (None, Some e)
  | None => ret (Some (mkWorkflow id (w_name elem) (w_dtype elem) (w_bstate elem)), None)
  end.

(** The loop of [AddNode]: [for da, ds := range hash { tx.Exec(q, dtype,
    state, da, ds) }], left at the first error.  [hash] is given as its
    entries in the order the iteration visits them (Go leaves that order
    open: every order is a possible input here). *)
Fixpoint insert_transitions (tx : option TxID) (dtype : DocTypeID) (state : DocStateID)
         (hash : list (DocActionID * DocStateID)) : M (option error) :=
  match hash with
  | [] => ret None
  | (da, ds) :: r =>
      '(_, err) <- Tx_Exec tx (InsertTransition dtype state da ds) ;;
      match err with
      | Some e => ret (Some e)
      | None => insert_transitions tx dtype state r
      end
  end.

(** [func (ws *_Workflows) AddNode(otx, dtype, state, wid, name, ntype, hash)
    (NodeID, error)] *)
Definition AddNode (otx : option TxID) (dtype : DocTypeID) (state : DocStateID)
           (wid : WorkflowID) (name : string) (ntype : NodeType)
           (hash : list (DocActionID * DocStateID)) : M (NodeID * option error) :=
  let name := TrimSpace name in
  if String.eqb name EmptyString then ret (0, Some errNameEmpty)
  else if Nat.eqb (List.length hash) 0 then ret (0, Some errNoTransitions)
  else
    tx_prologue otx (fun e => (0, Some e)) (fun tx =>
      '(res, err) <- Tx_Exec tx (InsertNode dtype state wid name ntype) ;;
      match err with
      | Some e => ret (0, Some e)
      | None =>
          '(id, err) <- Result_LastInsertId res ;;
          match err with
          | Some e => ret (0, Some e)
          | None =>
              err <- insert_transitions tx dtype state hash ;;
              match err with
              | Some e => ret (0, Some e)
              | None => tx_epilogue otx tx id
              end
          end
      end).

(** Modelled from the spec: [Node] (node.go is not under src/).  "id,
    document type, the single state it governs, owning workflow id, name,
    type tag, and its Transition Table". *)
Record Node : Type := mkNode {
  node_row : NodeRow;
  xforms : list (DocActionID * DocStateID)
}.

Section ApplyEvent.

(** The two functions of node.go that [ApplyEvent] calls, whatever they
    do: [_nodes.GetByState(dtype, state) (n *Node, err error)] and
    [n.applyEvent(tx, event, recipients) (DocStateID, error)]. *)
Variable GetByState : DocTypeID -> DocStateID -> M (option Node * option error).
Variable applyEvent :
  option Node -> option TxID -> option EventPtr -> list GroupID ->
  M (DocStateID * option error).

(** [func (w *Workflow) ApplyEvent(otx, event, recipients) (DocStateID, error)] *)
Definition ApplyEvent (w : Workflow) (otx : option TxID) (event : option EventPtr)
           (recipients : list GroupID) : M (DocStateID * option error) :=
  match event with
  | None => ret (0, Some errEventNil)
  | Some p =>
      if Nat.eqb (List.length recipients) 0 then ret (0, Some errNoRecipients)
      else
        e <- load p ;;
        if EventStatus_eqb (ev_status e) EventStatusApplied
        then ret (0, Some errAlreadyApplied)
        else if negb (w_dtype w =? ev_dtype e)
        then ret (0, Some (errTypeMismatch (w_dtype w) (ev_dtype e)))
        else
          '(n, err) <- GetByState (w_dtype w) (ev_state e) ;;
          match err with
          | Some x => ret (0, Some x)
          | None =>
              tx_prologue otx (fun x => (0, Some x)) (fun tx =>
                '(nstate, err) <- applyEvent n tx event recipients ;;
                match err with
                | Some x => ret (0, Some x)
                | None => tx_epilogue otx tx nstate
                end)
          end
  end.

End ApplyEvent.

(** Modelled from the spec: [_nodes.GetByState] (node.go is not under src/).
    "getByState(documentType, state) -> Node | NotFound"; the node "owns the
    Transition Table for one (document type, state) pair". *)
Definition GetByState (dtype : DocTypeID) (state : DocStateID)
  : M (option Node * option error) :=
  _ <- log (OpQuery (SelectNode dtype state)) ;;
  f <- fault ;;
  if f : bool then ret (None, Some driver_ErrBadConn)
  else
    T <- gets committed ;;
    match find (fun n => (n_dtype n =? dtype) && (n_state n =? state))
               (wf_workflow_nodes T) with
    | None => ret (None, Some ErrNodeNotFound)
    | Some r =>
        ret (Some (mkNode r
               (map (fun t => (t_action t, t_to t))
                    (filter (fun t => (t_dtype t =? dtype) && (t_from t =? state))
                            (wf_docstate_transitions T)))),
             None)
    end.

Fixpoint lookup_action (a : DocActionID) (tt : list (DocActionID * DocStateID))
  : option DocStateID :=
  match tt with
  | [] => None
  | (a', st) :: r => if a =? a' then Some st else lookup_action a r
  end.

(** "record exactly one notification intent per recipient group referencing
    the event and the new state" *)
Fixpoint post_messages (tx : option TxID) (e : DocEventID) (st : DocStateID)
         (recipients : list GroupID) : M (option error) :=
  match recipients with
  | [] => ret None
  | g :: r =>
      '(_, err) <- Tx_Exec tx (InsertMessage e st g) ;;
      match err with
      | Some x => ret (Some x)
      | None => post_messages tx e st r
      end
  end.

(** Modelled from the spec: [Node.applyEvent] (node.go is not under src/).
    "Look up toState = TransitionTable[event.action].  If absent, fail with
    IllegalAction.  Otherwise, within the same unit of work: mark the event's
    status Applied, and record exactly one notification intent per recipient
    group referencing the event and the new state.  Return toState."  The
    unit of work is the one handed in; the event object is marked once the
    statements have gone through. *)
Definition applyEvent (n : option Node) (tx : option TxID) (event : option EventPtr)
           (recipients : list GroupID) : M (DocStateID * option error) :=
  match n, event with
  | Some n, Some p =>
      e <- load p ;;
      match lookup_action (ev_action e) (xforms n) with
      | None => ret (0, Some ErrIllegalAction)
      | Some toState =>
          '(_, err) <- Tx_Exec tx (MarkEventApplied (ev_id e)) ;;
          match err with
          | Some x => ret (0, Some x)
          | None =>
              err <- post_messages tx (ev_id e) toState recipients ;;
              match err with
              | Some x => ret (0, Some x)
              | None =>
                  _ <- store p (mkDocEvent (ev_id e) (ev_dtype e) (ev_state e)
                                           (ev_action e) EventStatusApplied) ;;
                  ret (toState, None)
              end
          end
      end
  | _, _ => panic
  end.

(** [ApplyEvent] over the node functions as the spec describes them. *)
Definition Workflow_ApplyEvent : Workflow -> option TxID -> option EventPtr ->
                                 list GroupID -> M (DocStateID * option error) :=
  ApplyEvent GetByState applyEvent.

(** * The vocabulary of the properties *)

(** [m] takes every world to one that is [R]-related to it. *)
Definition respects (R : World -> World -> Prop) {A : Type} (m : M A) : Prop :=
  forall s, R s (fst (m s)).

(** The kinds of the spec's taxonomy that workflow.go raises itself. *)
Definition InvalidArgument (e : error) : Prop :=
  e = errEventNil \/ e = errNoRecipients \/ e = errNameEmpty
  \/ e = errNoTransitions \/ e = errOffsetLimit.

(** An error never comes with a value other than the zero value. *)
Definition zero_on_error (r : Outcome (Z * option error)) : Prop :=
  match r with
  | Ret (v, Some _) => v = 0
  | _ => True
  end.

Definition error_gives_zero (m : M (Z * option error)) : Prop :=
  forall s, zero_on_error (snd (m s)).

(** [p] points to the event [e]. *)
Definition points_to (s : World) (p : EventPtr) (e : DocEvent) : Prop :=
  nth_error (heap s) p = Some e.

(** The world before anything is stored. *)
Definition empty_world : World := mkWorld no_tables [] 0%nat [] [] [].

Definition ascending_by_id (l : list Workflow) : Prop :=
  StronglySorted (fun a b => w_id a <= w_id b) l.

(** The window [List] asks the store for: [limit = 0] is replaced by
    [math.MaxInt64]. *)
Definition effective_limit (limit : Z) : Z := if limit =? 0 then MaxInt64 else limit.

(** The listing as the comment above [List] words it: "Result set begins with
    ID >= offset, and has not more than limit elements". *)
Definition select_from_id (limit offset : Z) (T : Tables) : list Workflow :=
  takeZ limit (filter (fun w => offset <=? w_id w) (order_by_id (wf_workflows T))).

(** Three workflows, with ids 1, 2 and 3, committed. *)
Definition three_workflows : World :=
  mkWorld (mkTables [mkWorkflow 1 "a" 1 10; mkWorkflow 2 "b" 1 10; mkWorkflow 3 "c" 1 10]
                    [] [] [] [])
          [] 0%nat [] [] [].

(** The call is a statement executed on the transaction [t]. *)
Definition exec_on (t : TxID) (op : Op) : Prop := exists q, op = OpExec t q.

(** The call is a statement executed on [t], or a query. *)
Definition read_or_exec_on (t : TxID) (op : Op) : Prop :=
  match op with
  | OpExec t' _ => t' = t
  | OpQuery _ => True
  | _ => False
  end.

(** From [s] to [s'] the store was reached by calls satisfying [P] only;
    what is committed, the transactions that are open, and what the
    transactions other than [t] hold are as before. *)
Record in_tx (P : Op -> Prop) (t : TxID) (s s' : World) : Prop := mk_in_tx {
  in_tx_trace : exists ops, trace s' = trace s ++ ops /\ Forall P ops;
  in_tx_committed : committed s' = committed s;
  in_tx_next : next_tx s' = next_tx s;
  in_tx_open :
    forall t', find_tx t' (open_txs s') = None <-> find_tx t' (open_txs s) = None;
  in_tx_others :
    forall t', t' <> t -> find_tx t' (open_txs s') = find_tx t' (open_txs s)
}.

(** The call did not come back with a value and a nil error. *)
Definition not_ok (r : Outcome (Z * option error)) : Prop :=
  match r with
  | Ret (_, None) => False
  | _ => True
  end.

Definition never_ok (m : M (Z * option error)) : Prop := forall s, not_ok (snd (m s)).

(** The workflow of the spec's scenario, its node for state 10 with the
    transition 1 -> 20 committed, and one event in memory. *)
Definition acme_invoice : Workflow := mkWorkflow 1 "acme.invoice" 1 10.

Definition acme_tables : Tables :=
  mkTables [acme_invoice] [mkNodeRow 1 1 10 1 "start" "begin"]
           [mkTransitionRow 1 10 1 20] [] [].

Definition acme_world : World :=
  mkWorld acme_tables [] 0%nat [] [] [mkDocEvent 1 1 10 1 EventStatusCreated].

Definition same_heap (s s' : World) : Prop := heap s' = heap s.

(** The scenario of the spec, on a transaction of the caller. *)
Definition acme_in_tx : World := fst (DB_Begin acme_world).

Definition with_node (T : Tables) (n : NodeRow) : Tables :=
  mkTables (wf_workflows T) (wf_workflow_nodes T ++ [n]) (wf_docstate_transitions T)
           (wf_docevents_applied T) (wf_messages T).

Definition with_transitions (T : Tables) (ts : list TransitionRow) : Tables :=
  mkTables (wf_workflows T) (wf_workflow_nodes T) (wf_docstate_transitions T ++ ts)
           (wf_docevents_applied T) (wf_messages T).

(** One row per entry of the transitions map, in the order of the iteration. *)
Definition transition_rows (dtype : DocTypeID) (state : DocStateID)
           (hash : list (DocActionID * DocStateID)) : list TransitionRow :=
  map (fun x => mkTransitionRow dtype state (fst x) (snd x)) hash.

(** A transaction of the caller on a store where the transition on action 1
    from state 10 of document type 1 is already defined. *)
Definition taken_transition : World :=
  mkWorld (mkTables [] [] [mkTransitionRow 1 10 1 20] [] [])
          [(0%nat, mkTables [] [] [mkTransitionRow 1 10 1 20] [] [])] 1%nat [] [] [].

(** The tables with one more workflow. *)
Definition with_workflow (T : Tables) (w : Workflow) : Tables :=
  mkTables (wf_workflows T ++ [w]) (wf_workflow_nodes T) (wf_docstate_transitions T)
           (wf_docevents_applied T) (wf_messages T).

(** Every transaction open in [s'] was open in [s] already. *)
Definition no_new_tx (s s' : World) : Prop :=
  forall t, find_tx t (open_txs s') <> None -> find_tx t (open_txs s) <> None.

(** The call is a query. *)
Definition is_query (op : Op) : Prop := exists q, op = OpQuery q.

(** From [s] to [s'] the store was only queried: what is committed, the
    open transactions and what they hold, and the events in memory are as
    before. *)
Record read_only (s s' : World) : Prop := mk_read_only {
  ro_trace : exists ops, trace s' = trace s ++ ops /\ Forall is_query ops;
  ro_committed : committed s' = committed s;
  ro_open : open_txs s' = open_txs s;
  ro_next : next_tx s' = next_tx s;
  ro_heap : heap s' = heap s
}.

(** The keys of the workflows are distinct and start at 1, as an
    auto-increment primary key has them. *)
Definition keys_distinct_positive (l : list Workflow) : Prop :=
  NoDup (map w_id l) /\ forall w, In w l -> 1 <= w_id w.

(** A store without any node, and one event in memory. *)
Definition no_node_world : World :=
  mkWorld no_tables [] 0%nat [] [] [mkDocEvent 1 1 10 1 EventStatusCreated].

(** The statements [AddNode] sends for the transitions map, in the order of
    the iteration. *)
Definition transition_inserts (t : TxID) (dtype : DocTypeID) (state : DocStateID)
           (hash : list (DocActionID * DocStateID)) : list Op :=
  map (fun x => OpExec t (InsertTransition dtype state (fst x) (snd x))) hash.

(** * Properties *)

(** ** How results compose *)

Lemma bind_ret_run {A B : Type} (m : M A) (k : A -> M B) (s s' : World) (a : A) :
  m s = (s', Ret a) -> bind m k s = k a s'.
Proof. intros H. unfold bind. rewrite H. reflexivity. Qed.

Lemma bind_panic_run {A B : Type} (m : M A) (k : A -> M B) (s s' : World) :
  m s = (s', Panic) -> bind m k s = (s', Panic).
Proof. intros H. unfold bind. rewrite H. reflexivity. Qed.

Lemma defer_snd {A B : Type} (d : M B) (body : M A) (s : World) :
  snd (defer d body s) = snd (body s).
Proof. unfold defer. destruct (body s). reflexivity. Qed.

Lemma egz_ret_error (e : error) : error_gives_zero (ret (0, Some e)).
Proof. intros s. reflexivity. Qed.

Lemma egz_ret_ok (v : Z) : error_gives_zero (ret (v, None)).
Proof. intros s. exact I. Qed.

Lemma egz_bind {A : Type} (m : M A) (k : A -> M (Z * option error)) :
  (forall a, error_gives_zero (k a)) -> error_gives_zero (bind m k).
Proof.
  intros Hk s. unfold bind. destruct (m s) as [s' [a|]].
  - apply Hk.
  - exact I.
Qed.

Lemma egz_defer {B : Type} (d : M B) (body : M (Z * option error)) :
  error_gives_zero body -> error_gives_zero (defer d body).
Proof. intros Hb s. rewrite defer_snd. apply Hb. Qed.

Lemma egz_epilogue (otx tx : option TxID) (v : Z) :
  error_gives_zero (tx_epilogue otx tx v).
Proof.
  destruct otx as [t|]; simpl.
  - apply egz_ret_ok.
  - apply egz_bind. intros [e|]; [apply egz_ret_error | apply egz_ret_ok].
Qed.

Lemma egz_prologue (otx : option TxID) (rest : option TxID -> M (Z * option error)) :
  (forall tx, error_gives_zero (rest tx)) ->
  error_gives_zero (tx_prologue otx (fun e => (0, Some e)) rest).
Proof.
  intros Hr. destruct otx as [t|]; simpl.
  - apply Hr.
  - apply egz_bind. intros [tx' [e|]].
    + apply egz_ret_error.
    + apply egz_defer, Hr.
Qed.

Lemma egz_New (otx : option TxID) (name : string) (dtype : DocTypeID) (state : DocStateID) :
  error_gives_zero (New otx name dtype state).
Proof.
  unfold New. destruct (String.eqb (TrimSpace name) EmptyString).
  - apply egz_ret_error.
  - apply egz_prologue. intros tx.
    apply egz_bind. intros [res [e|]]; [apply egz_ret_error|].
    apply egz_bind. intros [id [e|]]; [apply egz_ret_error|].
    apply egz_epilogue.
Qed.

Lemma egz_AddNode (otx : option TxID) (dtype : DocTypeID) (state : DocStateID)
      (wid : WorkflowID) (name : string) (ntype : NodeType)
      (hash : list (DocActionID * DocStateID)) :
  error_gives_zero (AddNode otx dtype state wid name ntype hash).
Proof.
  unfold AddNode. destruct (String.eqb (TrimSpace name) EmptyString).
  - apply egz_ret_error.
  - destruct (Nat.eqb (List.length hash) 0); [apply egz_ret_error|].
    apply egz_prologue. intros tx.
    apply egz_bind. intros [res [e|]]; [apply egz_ret_error|].
    apply egz_bind. intros [id [e|]]; [apply egz_ret_error|].
    apply egz_bind. intros [e|]; [apply egz_ret_error|].
    apply egz_epilogue.
Qed.

Lemma egz_ApplyEvent
      (G : DocTypeID -> DocStateID -> M (option Node * option error))
      (A : option Node -> option TxID -> option EventPtr -> list GroupID ->
           M (DocStateID * option error))
      (w : Workflow) (otx : option TxID) (event : option EventPtr)
      (recipients : list GroupID) :
  error_gives_zero (ApplyEvent G A w otx event recipients).
Proof.
  unfold ApplyEvent. destruct event as [p|]; [|apply egz_ret_error].
  destruct (Nat.eqb (List.length recipients) 0); [apply egz_ret_error|].
  apply egz_bind. intros e.
  destruct (EventStatus_eqb (ev_status e) EventStatusApplied); [apply egz_ret_error|].
  destruct (negb (w_dtype w =? ev_dtype e)); [apply egz_ret_error|].
  apply egz_bind. intros [n [x|]]; [apply egz_ret_error|].
  apply egz_prologue. intros tx.
  apply egz_bind. intros [nstate [x|]]; [apply egz_ret_error|].
  apply egz_epilogue.
Qed.

(** C9.  On every error path [ApplyEvent] (whatever the two functions of
    node.go do), [New] and [AddNode] return 0 with the error: a caller never
    receives a non-zero state or identifier together with a non-nil error. *)
Theorem error_paths_return_zero :
  forall (G : DocTypeID -> DocStateID -> M (option Node * option error))
         (A : option Node -> option TxID -> option EventPtr -> list GroupID ->
              M (DocStateID * option error))
         (w : Workflow) (otx : option TxID) (event : option EventPtr)
         (recipients : list GroupID) (name : string) (dtype : DocTypeID)
         (state : DocStateID) (wid : WorkflowID) (ntype : NodeType)
         (hash : list (DocActionID * DocStateID)) (s : World),
    zero_on_error (snd (ApplyEvent G A w otx event recipients s))
    /\ zero_on_error (snd (New otx name dtype state s))
    /\ zero_on_error (snd (AddNode otx dtype state wid name ntype hash s)).
Proof.
  intros. split; [|split].
  - apply egz_ApplyEvent.
  - apply egz_New.
  - apply egz_AddNode.
Qed.

(** ** Rejected arguments *)

Lemma length_eqb_nonempty {A : Type} (l : list A) :
  l <> [] -> Nat.eqb (List.length l) 0 = false.
Proof. destruct l; [congruence | reflexivity]. Qed.

Lemma load_points_to (s : World) (p : EventPtr) (e : DocEvent) :
  points_to s p e -> load p s = (s, Ret e).
Proof. unfold points_to, load. intros ->. reflexivity. Qed.

Lemma EventStatus_eqb_eq (a b : EventStatus) : EventStatus_eqb a b = true <-> a = b.
Proof. destruct a, b; simpl; split; congruence. Qed.

Lemma EventStatus_eqb_neq (a b : EventStatus) : a <> b -> EventStatus_eqb a b = false.
Proof. destruct a, b; simpl; congruence. Qed.

(** The guard of lines 82-84, for any transaction argument and whatever
    node.go does: an applied event with some recipient is refused and the
    world stays as it is. *)
Lemma ApplyEvent_applied
      (G : DocTypeID -> DocStateID -> M (option Node * option error))
      (A : option Node -> option TxID -> option EventPtr -> list GroupID ->
           M (DocStateID * option error))
      (w : Workflow) (otx : option TxID) (p : EventPtr) (e : DocEvent)
      (recipients : list GroupID) (s : World) :
  points_to s p e -> recipients <> [] -> ev_status e = EventStatusApplied ->
  ApplyEvent G A w otx (Some p) recipients s = (s, Ret (0, Some errAlreadyApplied)).
Proof.
  intros Hp Hr He. unfold ApplyEvent.
  rewrite (length_eqb_nonempty _ Hr).
  rewrite (bind_ret_run _ _ _ _ _ (load_points_to _ _ _ Hp)).
  rewrite He. reflexivity.
Qed.

(** C7.  [New] with a name that is empty once trimmed, and [AddNode] with such
    a name or with no transitions, fail with an InvalidArgument error and
    leave the world as it was: no call into the store, no insert. *)
Theorem blank_arguments_rejected :
  forall (otx : option TxID) (name : string) (dtype : DocTypeID) (state : DocStateID)
         (wid : WorkflowID) (ntype : NodeType)
         (hash : list (DocActionID * DocStateID)) (s : World),
    (TrimSpace name = EmptyString ->
     New otx name dtype state s = (s, Ret (0, Some errNameEmpty))
     /\ AddNode otx dtype state wid name ntype hash s = (s, Ret (0, Some errNameEmpty)))
    /\ (hash = [] ->
        exists e, InvalidArgument e
                  /\ AddNode otx dtype state wid name ntype hash s = (s, Ret (0, Some e))).
Proof.
  intros. split.
  - intros H. unfold New, AddNode. rewrite H. split; reflexivity.
  - intros ->. unfold AddNode.
    destruct (String.eqb (TrimSpace name) EmptyString).
    + exists errNameEmpty. split; [|reflexivity].
      unfold InvalidArgument. auto.
    + exists errNoTransitions. split; [|reflexivity].
      unfold InvalidArgument. auto.
Qed.

Lemma blank_arguments_rejected_witness :
  (New None "  " 1 10 empty_world = (empty_world, Ret (0, Some errNameEmpty))
   /\ AddNode None 1 10 1 "  " "begin" [] empty_world
      = (empty_world, Ret (0, Some errNameEmpty)))
  /\ (exists e, InvalidArgument e
                /\ AddNode None 1 10 1 "  " "begin" [] empty_world
                   = (empty_world, Ret (0, Some e))).
Proof.
  destruct (blank_arguments_rejected None "  " 1 10 1 "begin" [] empty_world) as [H1 H2].
  split; [apply H1; reflexivity | apply H2; reflexivity].
Defined.

(** C4, as amended.  For every workflow [w] and every non-nil event [e] with
    some recipient, whose status is not Applied and whose document type
    differs from that of [w], [ApplyEvent] returns the TypeMismatch error and
    changes nothing (for any transaction argument, whatever node.go does). *)
Theorem type_mismatch_rejected :
  forall (G : DocTypeID -> DocStateID -> M (option Node * option error))
         (A : option Node -> option TxID -> option EventPtr -> list GroupID ->
              M (DocStateID * option error))
         (w : Workflow) (otx : option TxID) (p : EventPtr) (e : DocEvent)
         (recipients : list GroupID) (s : World),
    points_to s p e ->
    recipients <> [] ->
    ev_status e <> EventStatusApplied ->
    ev_dtype e <> w_dtype w ->
    ApplyEvent G A w otx (Some p) recipients s
    = (s, Ret (0, Some (errTypeMismatch (w_dtype w) (ev_dtype e)))).
Proof.
  intros G A w otx p e recipients s Hp Hr Hs Hd. unfold ApplyEvent.
  rewrite (length_eqb_nonempty _ Hr).
  rewrite (bind_ret_run _ _ _ _ _ (load_points_to _ _ _ Hp)).
  rewrite (EventStatus_eqb_neq _ _ Hs).
  replace (w_dtype w =? ev_dtype e) with false.
  - reflexivity.
  - symmetry. apply Z.eqb_neq. congruence.
Qed.

Lemma type_mismatch_rejected_witness :
  let w := mkWorkflow 1 "acme.invoice" 1 10 in
  let e := mkDocEvent 5 2 10 1 EventStatusCreated in
  let s := mkWorld no_tables [] 0%nat [] [] [e] in
  Workflow_ApplyEvent w None (Some 0%nat) [7] s
  = (s, Ret (0, Some (errTypeMismatch 1 2))).
Proof.
  intros w e s.
  apply (type_mismatch_rejected GetByState applyEvent w None 0%nat e [7] s).
  - reflexivity.
  - discriminate.
  - discriminate.
  - discriminate.
Defined.

(** C4 as stated fails: an event that is already Applied and of another
    document type is refused as AlreadyApplied, the status being examined
    first. *)
Lemma type_mismatch_applied_event_counterexample :
  let w := mkWorkflow 1 "acme.invoice" 1 10 in
  let e := mkDocEvent 5 2 10 1 EventStatusApplied in
  let s := mkWorld no_tables [] 0%nat [] [] [e] in
  ev_dtype e <> w_dtype w
  /\ Workflow_ApplyEvent w None (Some 0%nat) [7] s = (s, Ret (0, Some errAlreadyApplied))
  /\ Workflow_ApplyEvent w None (Some 0%nat) [7] s
     <> (s, Ret (0, Some (errTypeMismatch (w_dtype w) (ev_dtype e)))).
Proof.
  cbv zeta. split; [discriminate|]. split; [reflexivity|].
  vm_compute. discriminate.
Qed.

(** ** The listing *)

Lemma insert_by_id_In (w x : Workflow) (l : list Workflow) :
  In x (insert_by_id w l) -> x = w \/ In x l.
Proof.
  induction l as [|y r IH]; simpl.
  - intros [H|[]]; auto.
  - destruct (w_id w <? w_id y); simpl.
    + intros [H|[H|H]]; auto.
    + intros [H|H]; auto. destruct (IH H); auto.
Qed.

Lemma insert_by_id_sorted (w : Workflow) (l : list Workflow) :
  ascending_by_id l -> ascending_by_id (insert_by_id w l).
Proof.
  unfold ascending_by_id. induction 1 as [|y r Hs IH Hy]; simpl.
  - constructor; constructor.
  - destruct (w_id w <? w_id y) eqn:E.
    + apply Z.ltb_lt in E. constructor.
      * constructor; assumption.
      * constructor; [lia|].
        rewrite Forall_forall in *. intros x Hx. specialize (Hy x Hx). lia.
    + apply Z.ltb_ge in E. constructor; [assumption|].
      rewrite Forall_forall in *. intros x Hx.
      destruct (insert_by_id_In _ _ _ Hx) as [->|Hx']; [lia | auto].
Qed.

Lemma insert_by_id_perm (w : Workflow) (l : list Workflow) :
  Permutation (insert_by_id w l) (w :: l).
Proof.
  induction l as [|y r IH]; simpl.
  - apply Permutation_refl.
  - destruct (w_id w <? w_id y).
    + apply Permutation_refl.
    + eapply perm_trans; [apply perm_skip, IH | apply perm_swap].
Qed.

Lemma fold_insert_sorted (l acc : list Workflow) :
  ascending_by_id acc ->
  ascending_by_id (fold_left (fun a w => insert_by_id w a) l acc).
Proof.
  revert acc. induction l as [|w r IH]; simpl; intros acc H.
  - assumption.
  - apply IH, insert_by_id_sorted, H.
Qed.

Lemma fold_insert_perm (l acc : list Workflow) :
  Permutation (fold_left (fun a w => insert_by_id w a) l acc) (l ++ acc).
Proof.
  revert acc. induction l as [|w r IH]; simpl; intros acc.
  - apply Permutation_refl.
  - eapply perm_trans; [apply IH|].
    eapply perm_trans; [apply Permutation_app_head, insert_by_id_perm|].
    apply Permutation_sym, Permutation_middle.
Qed.

Lemma order_by_id_sorted (l : list Workflow) : ascending_by_id (order_by_id l).
Proof. apply fold_insert_sorted. constructor. Qed.

Lemma order_by_id_perm (l : list Workflow) : Permutation (order_by_id l) l.
Proof.
  unfold order_by_id. eapply perm_trans; [apply fold_insert_perm|].
  rewrite app_nil_r. apply Permutation_refl.
Qed.

Lemma dropZ_In {A : Type} (l : list A) (n : Z) (x : A) : In x (dropZ n l) -> In x l.
Proof.
  revert n. induction l as [|y r IH]; simpl; intros n H; [assumption|].
  destruct (n <=? 0); [assumption | right; eauto].
Qed.

Lemma takeZ_In {A : Type} (l : list A) (n : Z) (x : A) : In x (takeZ n l) -> In x l.
Proof.
  revert n. induction l as [|y r IH]; simpl; intros n H; [assumption|].
  destruct (n <=? 0); [destruct H|]. destruct H; [left | right]; eauto.
Qed.

Lemma dropZ_sorted (l : list Workflow) (n : Z) :
  ascending_by_id l -> ascending_by_id (dropZ n l).
Proof.
  unfold ascending_by_id. intros H. revert n.
  induction H as [|y r Hs IH Hy]; simpl; intros n.
  - constructor.
  - destruct (n <=? 0); [constructor; assumption | apply IH].
Qed.

Lemma takeZ_sorted (l : list Workflow) (n : Z) :
  ascending_by_id l -> ascending_by_id (takeZ n l).
Proof.
  unfold ascending_by_id. intros H. revert n.
  induction H as [|y r Hs IH Hy]; simpl; intros n.
  - constructor.
  - destruct (n <=? 0); [constructor|]. constructor; [apply IH|].
    rewrite Forall_forall in *. intros x Hx. apply Hy. eapply takeZ_In, Hx.
Qed.

Lemma select_workflows_sorted (limit offset : Z) (T : Tables) :
  ascending_by_id (select_workflows limit offset T).
Proof. apply takeZ_sorted, dropZ_sorted, order_by_id_sorted. Qed.

Lemma takeZ_length_le {A : Type} (l : list A) (n : Z) :
  0 <= n -> Z.of_nat (List.length (takeZ n l)) <= n.
Proof.
  revert n. induction l as [|y r IH]; simpl; intros n Hn; [lia|].
  destruct (n <=? 0) eqn:E; simpl; [lia|].
  apply Z.leb_gt in E. specialize (IH (n - 1)). lia.
Qed.

Lemma takeZ_all {A : Type} (l : list A) (n : Z) :
  Z.of_nat (List.length l) <= n -> takeZ n l = l.
Proof.
  revert n. induction l as [|y r IH]; simpl; intros n Hn; [reflexivity|].
  destruct (n <=? 0) eqn:E.
  - apply Z.leb_le in E. lia.
  - f_equal. apply IH. lia.
Qed.


Lemma dropZ_zero {A : Type} (l : list A) : dropZ 0 l = l.
Proof. destruct l; reflexivity. Qed.

Lemma order_by_id_length (l : list Workflow) :
  List.length (order_by_id l) = List.length l.
Proof. apply Permutation_length, order_by_id_perm. Qed.

(** The scan delivers the rows of the cursor, in their order, after what was
    collected before. *)
Lemma scan_rows_success (rows ary : list Workflow) (s s' : World)
      (r : option (list Workflow)) :
  scan_rows rows ary s = (s', Ret (r, None)) -> r = Some (ary ++ rows).
Proof.
  revert ary s. induction rows as [|x rest IH]; simpl; intros ary s H.
  - unfold bind, Rows_Err, bind, fault, ret in H.
    destruct (faults s) as [|[|] fs]; inversion H; subst; now rewrite app_nil_r.
  - unfold bind at 1 in H. unfold Rows_Scan, bind, fault, ret in H.
    destruct (faults s) as [|[|] fs]; try discriminate.
    + apply IH in H. rewrite H, <- app_assoc. reflexivity.
    + apply IH in H. rewrite H, <- app_assoc. reflexivity.
Qed.


(** What a successful [List] returned. *)
Lemma List_success (offset limit : Z) (s s' : World) (r : option (list Workflow)) :
  List offset limit s = (s', Ret (r, None)) ->
  0 <= offset /\ 0 <= limit
  /\ r = Some (select_workflows (effective_limit limit) offset (committed s)).
Proof.
  unfold List, effective_limit. destruct ((offset <? 0) || (limit <? 0)) eqn:E.
  - discriminate.
  - apply orb_false_elim in E. destruct E as [E1 E2].
    apply Z.ltb_ge in E1, E2. intros H. split; [assumption|]. split; [assumption|].
    unfold bind at 1 in H. unfold DB_Query, bind, log, modify, fault, gets, ret in H.
    simpl in H. destruct (faults s) as [|[|] fs]; simpl in H; try discriminate.
    + apply scan_rows_success in H. exact H.
    + apply scan_rows_success in H. exact H.
Qed.




(** C10.  When [List] succeeds and no row falls in the window, it returns an
    empty, non-nil slice. *)
Theorem List_empty_window :
  forall (offset limit : Z) (s s' : World) (r : option (list Workflow)),
    select_workflows (effective_limit limit) offset (committed s) = [] ->
    List offset limit s = (s', Ret (r, None)) ->
    r = Some [].
Proof.
  intros offset limit s s' r Hw H. apply List_success in H.
  destruct H as (_ & _ & ->). rewrite Hw. reflexivity.
Qed.

Lemma List_empty_window_witness :
  exists s' r, List 5 2 three_workflows = (s', Ret (r, None)) /\ r = Some [].
Proof.
  exists (set_trace [OpQuery (SelectWorkflows 2 5)] three_workflows), (Some []).
  split; [vm_compute; reflexivity|].
  apply (List_empty_window 5 2 three_workflows
           (set_trace [OpQuery (SelectWorkflows 2 5)] three_workflows)).
  - vm_compute. reflexivity.
  - vm_compute. reflexivity.
Defined.

(** X3.  The parts of the listing that do not depend on how [offset] is read:
    on a table within the range of [int64] counts, a successful [List(0, 0)]
    returns every stored workflow, each once, ascending by id; and (below) a
    positive limit bounds the length of the result. *)
Lemma List_zero_zero_all (s s' : World) (r : option (list Workflow)) :
  Z.of_nat (List.length (wf_workflows (committed s))) <= MaxInt64 ->
  List 0 0 s = (s', Ret (r, None)) ->
  exists l, r = Some l /\ Permutation l (wf_workflows (committed s))
            /\ ascending_by_id l.
Proof.
  intros Hlen H. apply List_success in H. destruct H as (_ & _ & ->).
  eexists. split; [reflexivity|]. split; [|apply select_workflows_sorted].
  unfold select_workflows, effective_limit. simpl.
  rewrite dropZ_zero, takeZ_all by (rewrite order_by_id_length; exact Hlen).
  apply order_by_id_perm.
Qed.

(** X4.  With a limit above 0, a successful [List] returns at most that many
    workflows. *)
Lemma List_at_most_limit (offset limit : Z) (s s' : World) (l : list Workflow) :
  0 < limit ->
  List offset limit s = (s', Ret (Some l, None)) ->
  Z.of_nat (List.length l) <= limit.
Proof.
  intros Hl H. apply List_success in H. destruct H as (_ & _ & E).
  inversion E; subst l. unfold select_workflows, effective_limit.
  replace (limit =? 0) with false by (symmetry; apply Z.eqb_neq; lia).
  apply takeZ_length_le. lia.
Qed.

(** C2.  [List] skips [offset] rows; it does not start at the id [offset].
    With ids 1, 2, 3 stored, [List(2, 0)] returns the workflow 3 alone, while
    a listing that begins with id >= 2 returns the workflows 2 and 3. *)
Theorem List_offset_skips_rows :
  List 2 0 three_workflows
  = (set_trace [OpQuery (SelectWorkflows MaxInt64 2)] three_workflows,
     Ret (Some [mkWorkflow 3 "c" 1 10], None))
  /\ select_from_id (effective_limit 0) 2 (committed three_workflows)
     = [mkWorkflow 2 "b" 1 10; mkWorkflow 3 "c" 1 10].
Proof. split; vm_compute; reflexivity. Qed.

(** ** Relations every step of a computation respects *)

Section Respects.

Variable R : World -> World -> Prop.
Hypothesis R_refl : forall s, R s s.
Hypothesis R_trans : forall a b c, R a b -> R b c -> R a c.

Lemma respects_ret {A : Type} (a : A) : respects R (ret a).
Proof. intros s. apply R_refl. Qed.

Lemma respects_panic {A : Type} : respects R (@panic A).
Proof. intros s. apply R_refl. Qed.

Lemma respects_gets {A : Type} (f : World -> A) : respects R (gets f).
Proof. intros s. apply R_refl. Qed.

Lemma respects_load (p : EventPtr) : respects R (load p).
Proof. intros s. unfold load. destruct (nth_error (heap s) p); apply R_refl. Qed.

Lemma respects_modify (f : World -> World) :
  (forall s, R s (f s)) -> respects R (modify f).
Proof. intros H s. apply H. Qed.

Lemma respects_bind {A B : Type} (m : M A) (k : A -> M B) :
  respects R m -> (forall a, respects R (k a)) -> respects R (bind m k).
Proof.
  intros Hm Hk s. unfold bind. specialize (Hm s).
  destruct (m s) as [s1 [a|]]; simpl in Hm.
  - eapply R_trans; [exact Hm | apply Hk].
  - exact Hm.
Qed.

Lemma respects_defer {A B : Type} (d : M B) (body : M A) :
  respects R d -> respects R body -> respects R (defer d body).
Proof.
  intros Hd Hb s. unfold defer. specialize (Hb s).
  destruct (body s) as [s1 r]; simpl in *.
  eapply R_trans; [exact Hb | apply Hd].
Qed.

Hypothesis R_faults : forall s fs, R s (set_faults fs s).

Lemma respects_fault : respects R fault.
Proof.
  intros s. unfold fault. destruct (faults s); simpl; [apply R_refl | apply R_faults].
Qed.

Lemma respects_LastInsertId (res : option Result) : respects R (Result_LastInsertId res).
Proof.
  destruct res as [r|]; simpl; [|apply respects_panic].
  apply respects_bind; [apply respects_fault|].
  intros [|]; apply respects_ret.
Qed.

Variable t : TxID.
Hypothesis R_exec : forall s q, R s (set_trace (trace s ++ [OpExec t q]) s).
Hypothesis R_update :
  forall s T, R s (set_open_txs (update_tx t T (open_txs s)) s).

Lemma respects_Tx_Exec (q : Stmt) : respects R (Tx_Exec (Some t) q).
Proof.
  simpl. apply respects_bind; [apply respects_modify; intros s; apply R_exec|].
  intros _. apply respects_bind; [apply respects_gets|].
  intros [T|]; [|apply respects_ret].
  apply respects_bind; [apply respects_fault|].
  intros [|]; [apply respects_ret|].
  destruct (run_stmt q T) as [[T' k] [e|]]; [apply respects_ret|].
  apply respects_bind; [apply respects_modify; intros s; apply R_update|].
  intros _. apply respects_ret.
Qed.

Lemma respects_insert_transitions (dtype : DocTypeID) (state : DocStateID)
      (hash : list (DocActionID * DocStateID)) :
  respects R (insert_transitions (Some t) dtype state hash).
Proof.
  induction hash as [|[da ds] r IH]; [apply respects_ret|].
  cbn [insert_transitions]. apply respects_bind; [apply respects_Tx_Exec|].
  intros [res [e|]]; [apply respects_ret | apply IH].
Qed.

Lemma respects_post_messages (e : DocEventID) (st : DocStateID)
      (recipients : list GroupID) :
  respects R (post_messages (Some t) e st recipients).
Proof.
  induction recipients as [|g r IH]; [apply respects_ret|].
  cbn [post_messages]. apply respects_bind; [apply respects_Tx_Exec|].
  intros [res [x|]]; [apply respects_ret | apply IH].
Qed.

(** With a transaction handed in, the three operations go through the
    statements alone: nothing is begun, committed or rolled back. *)
Lemma respects_New (name : string) (dtype : DocTypeID) (state : DocStateID) :
  respects R (New (Some t) name dtype state).
Proof.
  unfold New. destruct (String.eqb (TrimSpace name) EmptyString); [apply respects_ret|].
  simpl. apply respects_bind; [apply respects_Tx_Exec|].
  intros [res [e|]]; [apply respects_ret|].
  apply respects_bind; [apply respects_LastInsertId|].
  intros [id [e|]]; apply respects_ret.
Qed.

Lemma respects_AddNode (dtype : DocTypeID) (state : DocStateID) (wid : WorkflowID)
      (name : string) (ntype : NodeType) (hash : list (DocActionID * DocStateID)) :
  respects R (AddNode (Some t) dtype state wid name ntype hash).
Proof.
  unfold AddNode. destruct (String.eqb (TrimSpace name) EmptyString); [apply respects_ret|].
  destruct (Nat.eqb (List.length hash) 0); [apply respects_ret|].
  simpl. apply respects_bind; [apply respects_Tx_Exec|].
  intros [res [e|]]; [apply respects_ret|].
  apply respects_bind; [apply respects_LastInsertId|].
  intros [id [e|]]; [apply respects_ret|].
  apply respects_bind; [apply respects_insert_transitions|].
  intros [e|]; apply respects_ret.
Qed.

(** [ApplyEvent] adds nothing of its own to what the node lookup and
    [n.applyEvent], run on the caller's transaction, do. *)
Lemma respects_ApplyEvent
      (G : DocTypeID -> DocStateID -> M (option Node * option error))
      (A : option Node -> option TxID -> option EventPtr -> list GroupID ->
           M (DocStateID * option error))
      (w : Workflow) (event : option EventPtr) (recipients : list GroupID) :
  (forall dt st, respects R (G dt st)) ->
  (forall n, respects R (A n (Some t) event recipients)) ->
  respects R (ApplyEvent G A w (Some t) event recipients).
Proof.
  intros HG HA. unfold ApplyEvent. destruct event as [p|]; [|apply respects_ret].
  destruct (Nat.eqb (List.length recipients) 0); [apply respects_ret|].
  apply respects_bind; [apply respects_load|]. intros e.
  destruct (EventStatus_eqb (ev_status e) EventStatusApplied); [apply respects_ret|].
  destruct (negb (w_dtype w =? ev_dtype e)); [apply respects_ret|].
  apply respects_bind; [apply HG|].
  intros [n [x|]]; [apply respects_ret|].
  simpl. apply respects_bind; [apply HA|].
  intros [nstate [x|]]; apply respects_ret.
Qed.

Hypothesis R_query : forall s q, R s (set_trace (trace s ++ [OpQuery q]) s).

Lemma respects_GetByState (dtype : DocTypeID) (state : DocStateID) :
  respects R (GetByState dtype state).
Proof.
  unfold GetByState.
  apply respects_bind; [apply respects_modify; intros s; apply R_query|].
  intros _. apply respects_bind; [apply respects_fault|].
  intros [|]; [apply respects_ret|].
  apply respects_bind; [apply respects_gets|]. intros T.
  destruct (find _ _); apply respects_ret.
Qed.

Hypothesis R_heap : forall s h, R s (set_heap h s).

Lemma respects_applyEvent (n : option Node) (event : option EventPtr)
      (recipients : list GroupID) :
  respects R (applyEvent n (Some t) event recipients).
Proof.
  unfold applyEvent. destruct n as [n|]; [|apply respects_panic].
  destruct event as [p|]; [|apply respects_panic].
  apply respects_bind; [apply respects_load|]. intros e.
  destruct (lookup_action (ev_action e) (xforms n)) as [st|]; [|apply respects_ret].
  apply respects_bind; [apply respects_Tx_Exec|].
  intros [res [x|]]; [apply respects_ret|].
  apply respects_bind; [apply respects_post_messages|].
  intros [x|]; [apply respects_ret|].
  apply respects_bind; [apply respects_modify; intros s; apply R_heap|].
  intros _. apply respects_ret.
Qed.

Lemma respects_Workflow_ApplyEvent (w : Workflow) (event : option EventPtr)
      (recipients : list GroupID) :
  respects R (Workflow_ApplyEvent w (Some t) event recipients).
Proof.
  apply respects_ApplyEvent.
  - intros dt st. apply respects_GetByState.
  - intros n. apply respects_applyEvent.
Qed.

End Respects.

(** ** A transaction supplied by the caller *)

Lemma find_update_tx_other (t t' : TxID) (T : Tables) (o : list (TxID * Tables)) :
  t' <> t -> find_tx t' (update_tx t T o) = find_tx t' o.
Proof.
  intros Hne. induction o as [|[u U] r IH]; simpl; [reflexivity|].
  destruct (Nat.eqb t u) eqn:E; simpl.
  - apply Nat.eqb_eq in E. subst u.
    destruct (Nat.eqb t' t) eqn:E'; [apply Nat.eqb_eq in E'; contradiction | reflexivity].
  - destruct (Nat.eqb t' u); [reflexivity | exact IH].
Qed.

Lemma find_update_tx_same (t : TxID) (T : Tables) (o : list (TxID * Tables)) :
  find_tx t (update_tx t T o) = match find_tx t o with Some _ => Some T | None => None end.
Proof.
  induction o as [|[u U] r IH]; simpl; [reflexivity|].
  destruct (Nat.eqb t u) eqn:E; simpl; rewrite E; [reflexivity | exact IH].
Qed.

Lemma find_update_tx_none (t t' : TxID) (T : Tables) (o : list (TxID * Tables)) :
  find_tx t' (update_tx t T o) = None <-> find_tx t' o = None.
Proof.
  destruct (Nat.eq_dec t' t) as [->|Hne].
  - rewrite find_update_tx_same. destruct (find_tx t o); split; congruence.
  - rewrite find_update_tx_other by assumption. reflexivity.
Qed.

Lemma find_remove_tx_same (t : TxID) (o : list (TxID * Tables)) :
  find_tx t (remove_tx t o) = None.
Proof.
  induction o as [|[u U] r IH]; simpl; [reflexivity|].
  destruct (Nat.eqb t u) eqn:E; simpl; [exact IH | rewrite E; exact IH].
Qed.

Lemma Tx_Rollback_closes (t : TxID) (s : World) :
  committed (fst (Tx_Rollback (Some t) s)) = committed s
  /\ find_tx t (open_txs (fst (Tx_Rollback (Some t) s))) = None.
Proof.
  unfold Tx_Rollback, bind, log, modify, gets, fault, ret. simpl.
  destruct (find_tx t (open_txs s)) as [T|] eqn:F; simpl.
  - destruct (faults s) as [|b fs]; simpl; split;
      try reflexivity; apply find_remove_tx_same.
  - simpl. split; [reflexivity | exact F].
Qed.

Lemma in_tx_refl (P : Op -> Prop) (t : TxID) (s : World) : in_tx P t s s.
Proof.
  constructor; try reflexivity.
  exists []. rewrite app_nil_r. split; [reflexivity | constructor].
Qed.

Lemma in_tx_trans (P : Op -> Prop) (t : TxID) (a b c : World) :
  in_tx P t a b -> in_tx P t b c -> in_tx P t a c.
Proof.
  intros [[o1 [E1 F1]] C1 N1 O1 X1] [[o2 [E2 F2]] C2 N2 O2 X2]. constructor.
  - exists (o1 ++ o2). rewrite E2, E1, app_assoc. split; [reflexivity|].
    apply Forall_app. split; assumption.
  - congruence.
  - congruence.
  - intros t'. rewrite O2. apply O1.
  - intros t' H. rewrite X2 by assumption. apply X1, H.
Qed.

Lemma in_tx_faults (P : Op -> Prop) (t : TxID) (s : World) (fs : list bool) :
  in_tx P t s (set_faults fs s).
Proof.
  constructor; try reflexivity.
  exists []. simpl. rewrite app_nil_r. split; [reflexivity | constructor].
Qed.

Lemma in_tx_heap (P : Op -> Prop) (t : TxID) (s : World) (h : list DocEvent) :
  in_tx P t s (set_heap h s).
Proof.
  constructor; try reflexivity.
  exists []. simpl. rewrite app_nil_r. split; [reflexivity | constructor].
Qed.

Lemma in_tx_log (P : Op -> Prop) (t : TxID) (s : World) (op : Op) :
  P op -> in_tx P t s (set_trace (trace s ++ [op]) s).
Proof.
  intros H. constructor; try reflexivity.
  exists [op]. split; [reflexivity | constructor; [exact H | constructor]].
Qed.

Lemma in_tx_update (P : Op -> Prop) (t : TxID) (s : World) (T : Tables) :
  in_tx P t s (set_open_txs (update_tx t T (open_txs s)) s).
Proof.
  constructor; try reflexivity.
  - exists []. simpl. rewrite app_nil_r. split; [reflexivity | constructor].
  - intros t'. simpl. apply find_update_tx_none.
  - intros t' H. simpl. apply find_update_tx_other, H.
Qed.

(** C5.  With a transaction [t] supplied by the caller, [New] and [AddNode]
    reach the store through statements executed on [t] only, and
    [ApplyEvent] through the node lookup and statements executed on [t]
    only: nothing is begun, committed or rolled back, on success or on
    failure; what is committed and which transactions are open stay as they
    were, so that [t] is left to the caller. *)
Theorem caller_transaction_left_to_caller :
  forall (t : TxID) (w : Workflow) (event : option EventPtr) (recipients : list GroupID)
         (name : string) (dtype : DocTypeID) (state : DocStateID) (wid : WorkflowID)
         (ntype : NodeType) (hash : list (DocActionID * DocStateID)) (s : World),
    in_tx (exec_on t) t s (fst (New (Some t) name dtype state s))
    /\ in_tx (exec_on t) t s (fst (AddNode (Some t) dtype state wid name ntype hash s))
    /\ in_tx (read_or_exec_on t) t s
             (fst (Workflow_ApplyEvent w (Some t) event recipients s)).
Proof.
  intros. split; [|split].
  - apply (respects_New (in_tx (exec_on t) t)).
    + apply in_tx_refl.
    + apply in_tx_trans.
    + apply in_tx_faults.
    + intros s0 q. apply in_tx_log. exists q. reflexivity.
    + apply in_tx_update.
  - apply (respects_AddNode (in_tx (exec_on t) t)).
    + apply in_tx_refl.
    + apply in_tx_trans.
    + apply in_tx_faults.
    + intros s0 q. apply in_tx_log. exists q. reflexivity.
    + apply in_tx_update.
  - apply (respects_Workflow_ApplyEvent (in_tx (read_or_exec_on t) t)).
    + apply in_tx_refl.
    + apply in_tx_trans.
    + apply in_tx_faults.
    + intros s0 q. apply in_tx_log. reflexivity.
    + apply in_tx_update.
    + intros s0 q. apply in_tx_log. exact I.
    + apply in_tx_heap.
Qed.

(** ** No transaction supplied *)

Lemma never_ok_ret_error (v : Z) (e : error) : never_ok (ret (v, Some e)).
Proof. intros s. exact I. Qed.

Lemma never_ok_bind {A : Type} (m : M A) (k : A -> M (Z * option error)) :
  (forall a, never_ok (k a)) -> never_ok (bind m k).
Proof.
  intros Hk s. unfold bind. destruct (m s) as [s' [a|]]; [apply Hk | exact I].
Qed.

Lemma never_ok_defer {B : Type} (d : M B) (body : M (Z * option error)) :
  never_ok body -> never_ok (defer d body).
Proof. intros Hb s. rewrite defer_snd. apply Hb. Qed.

(** The epilogue commits the function's own [tx]: nil, when no transaction
    was supplied. *)
Lemma never_ok_epilogue_nil (v : Z) : never_ok (tx_epilogue None None v).
Proof. intros s. exact I. Qed.

Lemma never_ok_prologue_nil (rest : option TxID -> M (Z * option error)) :
  never_ok (rest None) -> never_ok (tx_prologue None (fun e => (0, Some e)) rest).
Proof.
  intros Hr. simpl. apply never_ok_bind. intros [tx' [e|]].
  - apply never_ok_ret_error.
  - apply never_ok_defer, Hr.
Qed.

(** Without a transaction from the caller none of the three operations ever
    succeeds: each path to the final [return v, nil] goes through a method
    call on the nil [tx]. *)
Lemma nil_transaction_never_succeeds
      (G : DocTypeID -> DocStateID -> M (option Node * option error))
      (A : option Node -> option TxID -> option EventPtr -> list GroupID ->
           M (DocStateID * option error))
      (w : Workflow) (event : option EventPtr) (recipients : list GroupID)
      (name : string) (dtype : DocTypeID) (state : DocStateID) (wid : WorkflowID)
      (ntype : NodeType) (hash : list (DocActionID * DocStateID)) (s : World) :
  not_ok (snd (ApplyEvent G A w None event recipients s))
  /\ not_ok (snd (New None name dtype state s))
  /\ not_ok (snd (AddNode None dtype state wid name ntype hash s)).
Proof.
  split; [|split]; revert s.
  - change (never_ok (ApplyEvent G A w None event recipients)).
    unfold ApplyEvent. destruct event as [p|]; [|apply never_ok_ret_error].
    destruct (Nat.eqb (List.length recipients) 0); [apply never_ok_ret_error|].
    apply never_ok_bind. intros e.
    destruct (EventStatus_eqb (ev_status e) EventStatusApplied);
      [apply never_ok_ret_error|].
    destruct (negb (w_dtype w =? ev_dtype e)); [apply never_ok_ret_error|].
    apply never_ok_bind. intros [n [x|]]; [apply never_ok_ret_error|].
    apply never_ok_prologue_nil.
    apply never_ok_bind. intros [nstate [x|]]; [apply never_ok_ret_error|].
    apply never_ok_epilogue_nil.
  - change (never_ok (New None name dtype state)).
    unfold New. destruct (String.eqb (TrimSpace name) EmptyString);
      [apply never_ok_ret_error|].
    apply never_ok_prologue_nil.
    apply never_ok_bind. intros [res [e|]]; [apply never_ok_ret_error|].
    apply never_ok_bind. intros [id [e|]]; [apply never_ok_ret_error|].
    apply never_ok_epilogue_nil.
  - change (never_ok (AddNode None dtype state wid name ntype hash)).
    unfold AddNode. destruct (String.eqb (TrimSpace name) EmptyString);
      [apply never_ok_ret_error|].
    destruct (Nat.eqb (List.length hash) 0); [apply never_ok_ret_error|].
    apply never_ok_prologue_nil.
    apply never_ok_bind. intros [res [e|]]; [apply never_ok_ret_error|].
    apply never_ok_bind. intros [id [e|]]; [apply never_ok_ret_error|].
    apply never_ok_bind. intros [e|]; [apply never_ok_ret_error|].
    apply never_ok_epilogue_nil.
Qed.

Lemma committed_DB_Begin (s : World) : committed (fst (DB_Begin s)) = committed s.
Proof.
  unfold DB_Begin, bind, fault, log, modify, gets, ret.
  destruct (faults s) as [|[|] fs]; reflexivity.
Qed.

Lemma committed_rollback (tx : option TxID) (s : World) :
  committed (fst (Tx_Rollback tx s)) = committed s.
Proof.
  destruct tx as [t|]; [apply Tx_Rollback_closes | reflexivity].
Qed.

Lemma committed_prologue_nil {A : Type} (fail : error -> A) (rest : option TxID -> M A)
      (s : World) :
  (forall s1, committed (fst (rest None s1)) = committed s1) ->
  committed (fst (tx_prologue None fail rest s)) = committed s.
Proof.
  intros Hr. unfold tx_prologue, bind.
  pose proof (committed_DB_Begin s) as HB.
  destruct (DB_Begin s) as [s1 [[tx' [e|]]|]]; simpl in *; try exact HB.
  unfold defer. specialize (Hr s1). destruct (rest None s1) as [s2 r]. simpl in *.
  rewrite committed_rollback. congruence.
Qed.

(** Nor do [New] and [AddNode], without a transaction from the caller, ever
    change what is committed. *)
Lemma nil_transaction_commits_nothing
      (name : string) (dtype : DocTypeID) (state : DocStateID) (wid : WorkflowID)
      (ntype : NodeType) (hash : list (DocActionID * DocStateID)) (s : World) :
  committed (fst (New None name dtype state s)) = committed s
  /\ committed (fst (AddNode None dtype state wid name ntype hash s)) = committed s.
Proof.
  split.
  - unfold New. destruct (String.eqb (TrimSpace name) EmptyString); [reflexivity|].
    apply committed_prologue_nil. intros s1. reflexivity.
  - unfold AddNode. destruct (String.eqb (TrimSpace name) EmptyString); [reflexivity|].
    destruct (Nat.eqb (List.length hash) 0); [reflexivity|].
    apply committed_prologue_nil. intros s1. reflexivity.
Qed.

(** C1.  Called without a transaction on a healthy store, [New], [AddNode]
    and [ApplyEvent] begin a transaction and never use it: the statement is
    sent to the nil [tx], which panics; the transaction begun sees the
    deferred rollback only, nothing is inserted and nothing is committed. *)
Theorem nil_transaction_begun_but_not_used :
  New None "acme.invoice" 1 10 empty_world
  = (mkWorld no_tables [] 1%nat [] [OpBegin 0%nat; OpRollback 0%nat] [], Panic)
  /\ AddNode None 1 10 1 "start" "begin" [(1, 20)] empty_world
     = (mkWorld no_tables [] 1%nat [] [OpBegin 0%nat; OpRollback 0%nat] [], Panic)
  /\ Workflow_ApplyEvent acme_invoice None (Some 0%nat) [7] acme_world
     = (mkWorld acme_tables [] 1%nat []
                [OpQuery (SelectNode 1 10); OpBegin 0%nat; OpRollback 0%nat]
                [mkDocEvent 1 1 10 1 EventStatusCreated],
        Panic).
Proof. split; [|split]; vm_compute; reflexivity. Qed.

(** ** An event is applied once *)

Lemma bind_inv {A B : Type} (m : M A) (k : A -> M B) (s s' : World) (b : B) :
  bind m k s = (s', Ret b) -> exists a s1, m s = (s1, Ret a) /\ k a s1 = (s', Ret b).
Proof.
  unfold bind. destruct (m s) as [s1 [a|]]; intros H; [eauto | discriminate].
Qed.

Lemma load_inv (p : EventPtr) (s s1 : World) (e : DocEvent) :
  load p s = (s1, Ret e) -> s1 = s /\ points_to s p e.
Proof.
  unfold load, points_to. destruct (nth_error (heap s) p); intros H; inversion H; auto.
Qed.

(** A successful [ApplyEvent] ran on a transaction of the caller, and is a
    successful [n.applyEvent] on it. *)
Lemma ApplyEvent_success
      (G : DocTypeID -> DocStateID -> M (option Node * option error))
      (A : option Node -> option TxID -> option EventPtr -> list GroupID ->
           M (DocStateID * option error))
      (w : Workflow) (otx : option TxID) (event : option EventPtr)
      (recipients : list GroupID) (s s' : World) (v : DocStateID) :
  ApplyEvent G A w otx event recipients s = (s', Ret (v, None)) ->
  exists t p e n s1,
    otx = Some t /\ event = Some p /\ points_to s p e
    /\ G (w_dtype w) (ev_state e) s = (s1, Ret (n, None))
    /\ A n (Some t) (Some p) recipients s1 = (s', Ret (v, None)).
Proof.
  intros H. destruct otx as [t|].
  - unfold ApplyEvent in H. destruct event as [p|]; [|discriminate].
    destruct (Nat.eqb (List.length recipients) 0); [discriminate|].
    apply bind_inv in H. destruct H as (e & s0 & Hl & H).
    apply load_inv in Hl. destruct Hl as [-> Hp].
    destruct (EventStatus_eqb (ev_status e) EventStatusApplied); [discriminate|].
    destruct (negb (w_dtype w =? ev_dtype e)); [discriminate|].
    apply bind_inv in H. destruct H as ([n err] & s1 & HG & H).
    destruct err as [x|]; [discriminate|].
    simpl in H. apply bind_inv in H. destruct H as ([nstate err] & s2 & HA & H).
    destruct err as [x|]; [discriminate|].
    inversion H; subst. exists t, p, e, n, s1. auto.
  - destruct (nil_transaction_never_succeeds G A w event recipients
                EmptyString 0 0 0 EmptyString [] s) as [Hn _].
    rewrite H in Hn. destruct Hn.
Qed.

Lemma heap_Tx_Exec (t : TxID) (q : Stmt) (s : World) :
  heap (fst (Tx_Exec (Some t) q s)) = heap s.
Proof.
  apply (respects_Tx_Exec same_heap); unfold same_heap; intros; simpl; congruence.
Qed.

Lemma heap_post_messages (t : TxID) (e : DocEventID) (st : DocStateID)
      (recipients : list GroupID) (s : World) :
  heap (fst (post_messages (Some t) e st recipients s)) = heap s.
Proof.
  apply (respects_post_messages same_heap); unfold same_heap; intros; simpl; congruence.
Qed.

Lemma nth_error_set_nth {A : Type} (l : list A) (n : nat) (x y : A) :
  nth_error l n = Some y -> nth_error (set_nth n x l) n = Some x.
Proof.
  revert n. induction l as [|z r IH]; intros [|n]; simpl; try discriminate.
  - reflexivity.
  - apply IH.
Qed.

(** Once [n.applyEvent] has succeeded the event it was given is Applied. *)
Lemma applyEvent_marks (n : option Node) (t : TxID) (p : EventPtr)
      (recipients : list GroupID) (s s' : World) (v : DocStateID) :
  applyEvent n (Some t) (Some p) recipients s = (s', Ret (v, None)) ->
  exists e, points_to s' p e /\ ev_status e = EventStatusApplied.
Proof.
  unfold applyEvent. destruct n as [n|]; [|discriminate]. intros H.
  apply bind_inv in H. destruct H as (e & s0 & Hl & H).
  apply load_inv in Hl. destruct Hl as [-> Hp].
  destruct (lookup_action (ev_action e) (xforms n)) as [st|]; [|discriminate].
  apply bind_inv in H. destruct H as ([res err] & s1 & H1 & H).
  destruct err as [x|]; [discriminate|].
  apply bind_inv in H. destruct H as (err & s2 & H2 & H).
  destruct err as [x|]; [discriminate|].
  unfold bind, store, modify, ret in H. inversion H; subst. clear H.
  exists (mkDocEvent (ev_id e) (ev_dtype e) (ev_state e) (ev_action e)
                     EventStatusApplied).
  split; [|reflexivity].
  unfold points_to in *. simpl.
  eapply nth_error_set_nth.
  pose proof (heap_post_messages t (ev_id e) v recipients s1) as E2.
  rewrite H2 in E2. simpl in E2. rewrite E2.
  pose proof (heap_Tx_Exec t (MarkEventApplied (ev_id e)) s) as E1.
  rewrite H1 in E1. simpl in E1. rewrite E1. exact Hp.
Qed.

(** C3, as amended.  For every event whose status is already Applied and every
    non-empty list of recipients, [ApplyEvent] returns the AlreadyApplied
    error and changes nothing (for any transaction argument, whatever node.go
    does); and once an event has been applied, a second [ApplyEvent] on the
    same event returns AlreadyApplied and leaves the world the first one
    produced as it is. *)
Theorem applied_event_not_reapplied :
  forall (w : Workflow) (otx : option TxID) (p : EventPtr)
         (recipients : list GroupID) (s : World),
    recipients <> [] ->
    (forall G A e,
        points_to s p e -> ev_status e = EventStatusApplied ->
        ApplyEvent G A w otx (Some p) recipients s = (s, Ret (0, Some errAlreadyApplied)))
    /\ (forall w0 otx0 rs0 s0 nstate,
          Workflow_ApplyEvent w0 otx0 (Some p) rs0 s0 = (s, Ret (nstate, None)) ->
          Workflow_ApplyEvent w otx (Some p) recipients s
          = (s, Ret (0, Some errAlreadyApplied))).
Proof.
  intros w otx p recipients s Hr. split.
  - intros G A e Hp He. apply ApplyEvent_applied with (e := e); assumption.
  - intros w0 otx0 rs0 s0 nstate H.
    apply ApplyEvent_success in H.
    destruct H as (t & p' & e0 & n & s1 & _ & Ep & _ & _ & HA).
    inversion Ep; subst p'. apply applyEvent_marks in HA.
    destruct HA as (e & Hp & He).
    apply ApplyEvent_applied with (e := e); assumption.
Qed.

Lemma applied_event_not_reapplied_witness :
  Workflow_ApplyEvent acme_invoice (Some 0%nat) (Some 0%nat) [7] acme_in_tx
  = (fst (Workflow_ApplyEvent acme_invoice (Some 0%nat) (Some 0%nat) [7] acme_in_tx),
     Ret (20, None))
  /\ Workflow_ApplyEvent acme_invoice (Some 0%nat) (Some 0%nat) [7]
       (fst (Workflow_ApplyEvent acme_invoice (Some 0%nat) (Some 0%nat) [7] acme_in_tx))
     = (fst (Workflow_ApplyEvent acme_invoice (Some 0%nat) (Some 0%nat) [7] acme_in_tx),
        Ret (0, Some errAlreadyApplied)).
Proof.
  split; [vm_compute; reflexivity|].
  refine (proj2 (applied_event_not_reapplied acme_invoice (Some 0%nat) 0%nat [7] _ _)
                acme_invoice (Some 0%nat) [7] acme_in_tx 20 _).
  - discriminate.
  - vm_compute. reflexivity.
Defined.

(** C3 as stated fails: with no recipient, an Applied event is refused for the
    missing recipients, the recipients being examined first. *)
Lemma applied_event_no_recipients_counterexample :
  let e := mkDocEvent 1 1 10 1 EventStatusApplied in
  let s := mkWorld acme_tables [] 0%nat [] [] [e] in
  ev_status e = EventStatusApplied
  /\ Workflow_ApplyEvent acme_invoice None (Some 0%nat) [] s
     = (s, Ret (0, Some errNoRecipients))
  /\ Workflow_ApplyEvent acme_invoice None (Some 0%nat) [] s
     <> (s, Ret (0, Some errAlreadyApplied)).
Proof.
  cbv zeta. split; [reflexivity|]. split; [reflexivity|].
  vm_compute. discriminate.
Qed.

(** ** [AddNode] in a transaction of the caller *)

Lemma with_transitions_nil (T : Tables) : with_transitions T [] = T.
Proof. destruct T. unfold with_transitions. simpl. rewrite app_nil_r. reflexivity. Qed.

Lemma with_transitions_cons (T : Tables) (r : TransitionRow) (rs : list TransitionRow) :
  with_transitions (with_transitions T [r]) rs = with_transitions T (r :: rs).
Proof. unfold with_transitions. simpl. rewrite <- app_assoc. reflexivity. Qed.

Lemma run_InsertNode_ok (dt : DocTypeID) (st : DocStateID) (wid : WorkflowID)
      (nm : string) (nt : NodeType) (T T' : Tables) (k : Z) :
  run_stmt (InsertNode dt st wid nm nt) T = (T', k, None) ->
  T' = with_node T (mkNodeRow k dt st wid nm nt).
Proof.
  simpl. destruct (node_key_taken dt st T); intros H; inversion H. reflexivity.
Qed.

Lemma run_InsertTransition_ok (dt : DocTypeID) (st : DocStateID) (da : DocActionID)
      (ds : DocStateID) (T T' : Tables) (k : Z) :
  run_stmt (InsertTransition dt st da ds) T = (T', k, None) ->
  T' = with_transitions T [mkTransitionRow dt st da ds].
Proof.
  simpl. destruct (transition_key_taken dt st da T); intros H; inversion H. reflexivity.
Qed.

(** [tx.Exec] on a transaction always returns; with a nil error it returns a
    result, the statement having gone through on the tables of the
    transaction. *)
Lemma Tx_Exec_returns (t : TxID) (q : Stmt) (s : World) :
  exists s' res err,
    Tx_Exec (Some t) q s = (s', Ret (res, err))
    /\ (err = None ->
        exists T T' k,
          find_tx t (open_txs s) = Some T /\ run_stmt q T = (T', k, None)
          /\ res = Some (mkResult k) /\ find_tx t (open_txs s') = Some T').
Proof.
  unfold Tx_Exec, bind, log, modify, gets, fault, ret. simpl.
  destruct (find_tx t (open_txs s)) as [T|] eqn:F; simpl.
  - destruct (faults s) as [|[|] fs]; simpl.
    + destruct (run_stmt q T) as [[T' k] [e|]] eqn:E.
      * do 3 eexists. split; [reflexivity | discriminate].
      * do 3 eexists. split; [reflexivity|]. intros _.
        exists T, T', k. simpl. rewrite find_update_tx_same, F. auto.
    + do 3 eexists. split; [reflexivity | discriminate].
    + destruct (run_stmt q T) as [[T' k] [e|]] eqn:E.
      * do 3 eexists. split; [reflexivity | discriminate].
      * do 3 eexists. split; [reflexivity|]. intros _.
        exists T, T', k. simpl. rewrite find_update_tx_same, F. auto.
  - do 3 eexists. split; [reflexivity | discriminate].
Qed.

Lemma LastInsertId_returns (r : Result) (s : World) :
  exists s' v err,
    Result_LastInsertId (Some r) s = (s', Ret (v, err))
    /\ open_txs s' = open_txs s
    /\ (err = None -> v = lastInsertId r).
Proof.
  unfold Result_LastInsertId, bind, fault, ret.
  destruct (faults s) as [|[|] fs]; simpl; do 3 eexists;
    (split; [reflexivity | split; [reflexivity | try discriminate; auto]]).
Qed.

Lemma insert_transitions_returns (t : TxID) (dtype : DocTypeID) (state : DocStateID)
      (hash : list (DocActionID * DocStateID)) (s : World) :
  exists s' err,
    insert_transitions (Some t) dtype state hash s = (s', Ret err)
    /\ (err = None ->
        forall T, find_tx t (open_txs s) = Some T ->
                  find_tx t (open_txs s')
                  = Some (with_transitions T (transition_rows dtype state hash))).
Proof.
  revert s. induction hash as [|[da ds] r IH]; intros s.
  - exists s, None. split; [reflexivity|]. intros _ T F.
    simpl. rewrite with_transitions_nil. exact F.
  - cbn [insert_transitions].
    destruct (Tx_Exec_returns t (InsertTransition dtype state da ds) s)
      as (s1 & res & err & E & Hok).
    rewrite (bind_ret_run _ _ _ _ _ E). destruct err as [e|].
    + exists s1, (Some e). split; [reflexivity | discriminate].
    + destruct (Hok eq_refl) as (T0 & T' & k & F0 & R & _ & F1).
      apply run_InsertTransition_ok in R. subst T'.
      destruct (IH s1) as (s2 & err & E2 & Hok2).
      exists s2, err. split; [exact E2|]. intros He T F.
      rewrite F in F0. inversion F0; subst T0.
      rewrite (Hok2 He _ F1). simpl transition_rows.
      rewrite with_transitions_cons. reflexivity.
Qed.

Lemma AddNode_in_tx (t : TxID) (dtype : DocTypeID) (state : DocStateID)
      (wid : WorkflowID) (name : string) (ntype : NodeType)
      (hash : list (DocActionID * DocStateID)) (s : World) :
  in_tx (exec_on t) t s (fst (AddNode (Some t) dtype state wid name ntype hash s)).
Proof.
  apply (respects_AddNode (in_tx (exec_on t) t)).
  - apply in_tx_refl.
  - apply in_tx_trans.
  - apply in_tx_faults.
  - intros s0 q. apply in_tx_log. exists q. reflexivity.
  - apply in_tx_update.
Qed.

(** The sibling path.  In a transaction [t] of the caller, [AddNode] always
    returns, having executed statements on [t] only, with nothing committed
    and nothing rolled back.  When it succeeds, the tables of [t] have
    gained the Node row, under the id returned, and then exactly one
    Transition row per entry of the transitions map.  When an insert fails
    it returns 0 with the error, the rows inserted before the failure still
    pending in [t]; once the caller rolls [t] back, what is committed is
    what was committed before the call and [t] holds nothing. *)
Lemma AddNode_in_caller_transaction :
  forall (t : TxID) (dtype : DocTypeID) (state : DocStateID) (wid : WorkflowID)
         (name : string) (ntype : NodeType)
         (hash : list (DocActionID * DocStateID)) (s : World),
  exists s' v err,
    AddNode (Some t) dtype state wid name ntype hash s = (s', Ret (v, err))
    /\ in_tx (exec_on t) t s s'
    /\ (err = None ->
        exists T,
          find_tx t (open_txs s) = Some T
          /\ find_tx t (open_txs s')
             = Some (with_transitions
                       (with_node T (mkNodeRow v dtype state wid (TrimSpace name) ntype))
                       (transition_rows dtype state hash)))
    /\ (err <> None -> v = 0)
    /\ committed (fst (Tx_Rollback (Some t) s')) = committed s
    /\ find_tx t (open_txs (fst (Tx_Rollback (Some t) s'))) = None.
Proof.
  intros.
  assert (Hrun : exists s' v err,
             AddNode (Some t) dtype state wid name ntype hash s = (s', Ret (v, err))
             /\ (err = None ->
                 exists T,
                   find_tx t (open_txs s) = Some T
                   /\ find_tx t (open_txs s')
                      = Some (with_transitions
                                (with_node T (mkNodeRow v dtype state wid
                                                        (TrimSpace name) ntype))
                                (transition_rows dtype state hash)))
             /\ (err <> None -> v = 0)).
  { unfold AddNode.
    destruct (String.eqb (TrimSpace name) EmptyString).
    { do 3 eexists. split; [reflexivity|]. split; [discriminate | reflexivity]. }
    destruct (Nat.eqb (List.length hash) 0).
    { do 3 eexists. split; [reflexivity|]. split; [discriminate | reflexivity]. }
    cbn [tx_prologue].
    destruct (Tx_Exec_returns t (InsertNode dtype state wid (TrimSpace name) ntype) s)
      as (s1 & res & err & E1 & Hok1).
    rewrite (bind_ret_run _ _ _ _ _ E1). destruct err as [e|].
    { do 3 eexists. split; [reflexivity|]. split; [discriminate | reflexivity]. }
    destruct (Hok1 eq_refl) as (T & T' & k & F & R & -> & F1).
    apply run_InsertNode_ok in R. subst T'.
    destruct (LastInsertId_returns (mkResult k) s1) as (s2 & v & err & E2 & O2 & Hv).
    rewrite (bind_ret_run _ _ _ _ _ E2). destruct err as [e|].
    { do 3 eexists. split; [reflexivity|]. split; [discriminate | reflexivity]. }
    rewrite (Hv eq_refl). simpl lastInsertId.
    destruct (insert_transitions_returns t dtype state hash s2) as (s3 & err & E3 & Hok3).
    rewrite (bind_ret_run _ _ _ _ _ E3). destruct err as [e|].
    { do 3 eexists. split; [reflexivity|]. split; [discriminate | reflexivity]. }
    exists s3, k, None. split; [reflexivity|]. split; [|congruence].
    intros _. exists T. split; [exact F|].
    apply (Hok3 eq_refl). rewrite O2. exact F1. }
  destruct Hrun as (s' & v & err & E & Hok & Herr).
  exists s', v, err. split; [exact E|].
  pose proof (AddNode_in_tx t dtype state wid name ntype hash s) as Hin.
  rewrite E in Hin. simpl in Hin.
  split; [exact Hin|]. split; [exact Hok|]. split; [exact Herr|].
  destruct (Tx_Rollback_closes t s') as [C F].
  split; [|exact F]. rewrite C. apply (in_tx_committed _ _ _ _ Hin).
Qed.

(** In a transaction of the caller nothing is undone by [AddNode] itself: the
    second transition is a duplicate and is refused; [AddNode] returns the
    error and leaves the Node row and the first Transition row of that call
    pending in the caller's transaction, whose fate is the caller's (a
    commit makes them durable, a rollback discards them). *)
Lemma AddNode_partial_rows_pending :
  snd (AddNode (Some 0%nat) 1 10 1 "review" "linear" [(2, 30); (1, 40)] taken_transition)
  = Ret (0, Some (store_ErrDuplicate "wf_docstate_transitions"))
  /\ find_tx 0%nat
       (open_txs (fst (AddNode (Some 0%nat) 1 10 1 "review" "linear" [(2, 30); (1, 40)]
                               taken_transition)))
     = Some (mkTables [] [mkNodeRow 1 1 10 1 "review" "linear"]
                      [mkTransitionRow 1 10 1 20; mkTransitionRow 1 10 2 30] [] [])
  /\ committed
       (fst (Tx_Commit (Some 0%nat)
               (fst (AddNode (Some 0%nat) 1 10 1 "review" "linear" [(2, 30); (1, 40)]
                             taken_transition))))
     = mkTables [] [mkNodeRow 1 1 10 1 "review" "linear"]
                [mkTransitionRow 1 10 1 20; mkTransitionRow 1 10 2 30] [] [].
Proof. split; [|split]; vm_compute; reflexivity. Qed.

(** C6.  Called without a transaction, [AddNode] is not the atomic insert of
    the Node row and of one Transition row per entry: on a healthy, empty
    store [AddNode(nil, 1, 10, 1, "start", "begin", {1: 20})] begins a
    transaction, sends the insert of the node to the nil [tx] and panics;
    no statement reaches the store, the transaction begun sees the deferred
    rollback only, and nothing is stored.  The same call on a transaction of
    the caller, once committed, has stored the Node row and the Transition
    row.  And for every input: without a transaction [AddNode] never comes
    back with a NodeID and a nil error, and never changes what is
    committed. *)
Theorem AddNode_without_transaction_inserts_nothing :
  forall (dtype : DocTypeID) (state : DocStateID) (wid : WorkflowID) (name : string)
         (ntype : NodeType) (hash : list (DocActionID * DocStateID)) (s : World),
    AddNode None 1 10 1 "start" "begin" [(1, 20)] empty_world
    = (mkWorld no_tables [] 1%nat [] [OpBegin 0%nat; OpRollback 0%nat] [], Panic)
    /\ committed
         (fst (Tx_Commit (Some 0%nat)
                 (fst (AddNode (Some 0%nat) 1 10 1 "start" "begin" [(1, 20)]
                               (fst (DB_Begin empty_world))))))
       = mkTables [] [mkNodeRow 1 1 10 1 "start" "begin"]
                  [mkTransitionRow 1 10 1 20] [] []
    /\ not_ok (snd (AddNode None dtype state wid name ntype hash s))
    /\ committed (fst (AddNode None dtype state wid name ntype hash s)) = committed s.
Proof.
  intros. split; [vm_compute; reflexivity|]. split; [vm_compute; reflexivity|].
  split.
  - apply (nil_transaction_never_succeeds GetByState applyEvent acme_invoice None []
             name dtype state wid ntype hash s).
  - apply (nil_transaction_commits_nothing name dtype state wid ntype hash s).
Qed.

(** ** The scenario of the spec

    "register workflow acme.invoice for documentType=1, beginState=10.
    AddNode for state=10 with transitions {action=1 -> state=20}.
    ApplyEvent on event{documentType=1, state=10, action=1} with
    recipients=[group 7]: expect newState=20, event status Applied, one
    notification intent for group 7" -- run on transactions of the caller. *)
Example spec_scenario :
  let s1 := fst (DB_Begin empty_world) in
  let r2 := New (Some 0%nat) "acme.invoice" 1 10 s1 in
  let r3 := AddNode (Some 0%nat) 1 10 1 "start" "begin" [(1, 20)] (fst r2) in
  let s4 := fst (Tx_Commit (Some 0%nat) (fst r3)) in
  let s5 := fst (DB_Begin (set_heap [mkDocEvent 1 1 10 1 EventStatusCreated] s4)) in
  let r6 := Workflow_ApplyEvent acme_invoice (Some 1%nat) (Some 0%nat) [7] s5 in
  snd r2 = Ret (1, None)
  /\ snd r3 = Ret (1, None)
  /\ committed s4 = acme_tables
  /\ snd r6 = Ret (20, None)
  /\ heap (fst r6) = [mkDocEvent 1 1 10 1 EventStatusApplied]
  /\ committed (fst (Tx_Commit (Some 1%nat) (fst r6)))
     = mkTables [acme_invoice] [mkNodeRow 1 1 10 1 "start" "begin"]
                [mkTransitionRow 1 10 1 20] [1] [mkMessageRow 1 20 7].
Proof. cbv zeta. repeat split; vm_compute; reflexivity. Qed.

(** * Further properties of workflow.go *)

(** ** [List] and [Get] *)

Lemma scan_rows_error (rows ary : list Workflow) (s s' : World)
      (r : option (list Workflow)) (e : error) :
  scan_rows rows ary s = (s', Ret (r, Some e)) -> r = None.
Proof.
  revert ary s. induction rows as [|x rest IH]; simpl; intros ary s H.
  - unfold bind, Rows_Err, bind, fault, ret in H.
    destruct (faults s) as [|[|] fs]; inversion H; reflexivity.
  - unfold bind at 1 in H. unfold Rows_Scan, bind, fault, ret in H.
    destruct (faults s) as [|[|] fs].
    + eapply IH, H.
    + inversion H. reflexivity.
    + eapply IH, H.
Qed.

(** X1.  Whenever [List] returns an error, the slice it returns with it is
    nil: no partial listing comes with an error. *)
Theorem List_error_returns_nil :
  forall (offset limit : Z) (s s' : World) (r : option (list Workflow)) (e : error),
    List offset limit s = (s', Ret (r, Some e)) -> r = None.
Proof.
  intros offset limit s s' r e. unfold List.
  destruct ((offset <? 0) || (limit <? 0)).
  - intros H. inversion H. reflexivity.
  - intros H. unfold bind at 1 in H.
    unfold DB_Query, bind, log, modify, fault, gets, ret in H. simpl in H.
    destruct (faults s) as [|[|] fs]; simpl in H.
    + eapply scan_rows_error, H.
    + inversion H. reflexivity.
    + eapply scan_rows_error, H.
Qed.

Lemma List_error_returns_nil_witness :
  exists s' r e,
    List 0 0 (set_faults [true] three_workflows) = (s', Ret (r, Some e)) /\ r = None.
Proof.
  exists (set_trace [OpQuery (SelectWorkflows MaxInt64 0)] three_workflows),
         None, driver_ErrBadConn.
  split; [vm_compute; reflexivity|].
  apply (List_error_returns_nil 0 0 (set_faults [true] three_workflows)
           (set_trace [OpQuery (SelectWorkflows MaxInt64 0)] three_workflows)
           None driver_ErrBadConn).
  vm_compute. reflexivity.
Defined.

Lemma read_only_refl (s : World) : read_only s s.
Proof.
  constructor; try reflexivity.
  exists []. rewrite app_nil_r. split; [reflexivity | constructor].
Qed.

Lemma read_only_trans (a b c : World) : read_only a b -> read_only b c -> read_only a c.
Proof.
  intros [[o1 [E1 F1]] C1 O1 N1 H1] [[o2 [E2 F2]] C2 O2 N2 H2].
  constructor; try congruence.
  exists (o1 ++ o2). rewrite E2, E1, app_assoc. split; [reflexivity|].
  apply Forall_app. split; assumption.
Qed.

Lemma read_only_faults (s : World) (fs : list bool) : read_only s (set_faults fs s).
Proof.
  constructor; try reflexivity.
  exists []. simpl. rewrite app_nil_r. split; [reflexivity | constructor].
Qed.

Lemma read_only_query (s : World) (q : Query) :
  read_only s (set_trace (trace s ++ [OpQuery q]) s).
Proof.
  constructor; try reflexivity.
  exists [OpQuery q]. split; [reflexivity|].
  constructor; [exists q; reflexivity | constructor].
Qed.

Lemma read_only_scan_rows (rows ary : list Workflow) :
  respects read_only (scan_rows rows ary).
Proof.
  revert ary. induction rows as [|x rest IH]; intros ary; cbn [scan_rows].
  - apply respects_bind; [apply read_only_trans | |].
    + unfold Rows_Err. apply respects_bind; [apply read_only_trans | |].
      * apply respects_fault; [apply read_only_refl | apply read_only_faults].
      * intros b. apply respects_ret, read_only_refl.
    + intros [e|]; apply respects_ret, read_only_refl.
  - apply respects_bind; [apply read_only_trans | |].
    + unfold Rows_Scan. apply respects_bind; [apply read_only_trans | |].
      * apply respects_fault; [apply read_only_refl | apply read_only_faults].
      * intros [|]; apply respects_ret, read_only_refl.
    + intros [elem [e|]]; [apply respects_ret, read_only_refl | apply IH].
Qed.

Lemma read_only_List (offset limit : Z) : respects read_only (List offset limit).
Proof.
  unfold List. destruct ((offset <? 0) || (limit <? 0));
    [apply respects_ret, read_only_refl|].
  apply respects_bind; [apply read_only_trans | |].
  - unfold DB_Query. apply respects_bind; [apply read_only_trans | |].
    + apply respects_modify. intros s. apply read_only_query.
    + intros _. apply respects_bind; [apply read_only_trans | |].
      * apply respects_fault; [apply read_only_refl | apply read_only_faults].
      * intros [|]; [apply respects_ret, read_only_refl|].
        apply respects_bind; [apply read_only_trans | |].
        -- apply respects_gets, read_only_refl.
        -- intros T. apply respects_ret, read_only_refl.
  - intros [rows [e|]]; [apply respects_ret, read_only_refl|].
    destruct rows as [rows|]; [apply read_only_scan_rows|].
    apply respects_panic, read_only_refl.
Qed.

Lemma read_only_Get (id : WorkflowID) : respects read_only (Get id).
Proof.
  unfold Get. apply respects_bind; [apply read_only_trans | |].
  - unfold DB_QueryRow_Scan. apply respects_bind; [apply read_only_trans | |].
    + apply respects_modify. intros s. apply read_only_query.
    + intros _. apply respects_bind; [apply read_only_trans | |].
      * apply respects_fault; [apply read_only_refl | apply read_only_faults].
      * intros [|]; [apply respects_ret, read_only_refl|].
        apply respects_bind; [apply read_only_trans | |].
        -- apply respects_gets, read_only_refl.
        -- intros T. destruct (find _ _); apply respects_ret, read_only_refl.
  - intros [elem [e|]]; apply respects_ret, read_only_refl.
Qed.

(** X2.  [List] and [Get] only read: whatever their arguments and whether
    the store fails or not, they reach the store through queries alone, and
    what is committed, the open transactions and the events in memory are
    left as they were. *)
Theorem List_and_Get_only_read :
  forall (offset limit : Z) (id : WorkflowID) (s : World),
    read_only s (fst (List offset limit s)) /\ read_only s (fst (Get id s)).
Proof.
  intros. split; [apply read_only_List | apply read_only_Get].
Qed.

Lemma List_zero_zero_all_witness :
  exists l,
    Some [mkWorkflow 1 "a" 1 10; mkWorkflow 2 "b" 1 10; mkWorkflow 3 "c" 1 10] = Some l
    /\ Permutation l (wf_workflows (committed three_workflows))
    /\ ascending_by_id l.
Proof.
  apply (List_zero_zero_all three_workflows
           (set_trace [OpQuery (SelectWorkflows MaxInt64 0)] three_workflows)).
  - vm_compute. discriminate.
  - vm_compute. reflexivity.
Defined.

Lemma List_at_most_limit_witness :
  Z.of_nat (List.length [mkWorkflow 2 "b" 1 10; mkWorkflow 3 "c" 1 10]) <= 2.
Proof.
  apply (List_at_most_limit 1 2 three_workflows
           (set_trace [OpQuery (SelectWorkflows 2 1)] three_workflows)).
  - reflexivity.
  - vm_compute. reflexivity.
Defined.

Lemma dropZ_dropZ {A : Type} (l : list A) (a n : Z) :
  0 <= a -> 0 <= n -> dropZ (a + n) l = dropZ n (dropZ a l).
Proof.
  revert a. induction l as [|x r IH]; intros a Ha Hn.
  - simpl. reflexivity.
  - cbn [dropZ]. destruct (a <=? 0) eqn:Ea.
    + apply Z.leb_le in Ea. replace a with 0 by lia. reflexivity.
    + apply Z.leb_gt in Ea.
      replace (a + n <=? 0) with false by (symmetry; apply Z.leb_gt; lia).
      replace (a + n - 1) with ((a - 1) + n) by lia. apply IH; lia.
Qed.

Lemma takeZ_app {A : Type} (l : list A) (n m : Z) :
  0 <= n -> 0 <= m -> takeZ (n + m) l = takeZ n l ++ takeZ m (dropZ n l).
Proof.
  revert n. induction l as [|x r IH]; intros n Hn Hm.
  - reflexivity.
  - cbn [takeZ dropZ]. destruct (n <=? 0) eqn:En.
    + apply Z.leb_le in En. replace n with 0 by lia. reflexivity.
    + apply Z.leb_gt in En.
      replace (n + m <=? 0) with false by (symmetry; apply Z.leb_gt; lia).
      replace (n + m - 1) with ((n - 1) + m) by lia.
      rewrite IH by lia. reflexivity.
Qed.

Lemma effective_limit_pos (n : Z) : 0 < n -> effective_limit n = n.
Proof.
  intros H. unfold effective_limit.
  replace (n =? 0) with false by (symmetry; apply Z.eqb_neq; lia). reflexivity.
Qed.

(** X5.  Pages tile the listing: the page of [n] rows at [offset] followed
    by the page of [m] rows at [offset + n] is the page of [n + m] rows at
    [offset].  ([offset] counts rows, so the next page starts at
    [offset + n], not at the last id seen.) *)
Theorem List_pages_compose :
  forall (offset n m : Z) (s s1 s2 s3 : World) (l1 l2 l : list Workflow),
    0 < n -> 0 < m ->
    List offset n s = (s1, Ret (Some l1, None)) ->
    List (offset + n) m s1 = (s2, Ret (Some l2, None)) ->
    List offset (n + m) s2 = (s3, Ret (Some l, None)) ->
    l = l1 ++ l2.
Proof.
  intros offset n m s s1 s2 s3 l1 l2 l Hn Hm H1 H2 H3.
  pose proof (read_only_List offset n s) as R1. rewrite H1 in R1. simpl in R1.
  pose proof (read_only_List (offset + n) m s1) as R2. rewrite H2 in R2. simpl in R2.
  apply List_success in H1, H2, H3.
  destruct H1 as (Ho & _ & E1). destruct H2 as (_ & _ & E2). destruct H3 as (_ & _ & E3).
  rewrite effective_limit_pos in E1, E2, E3 by lia.
  rewrite (ro_committed _ _ R2), (ro_committed _ _ R1) in E3.
  rewrite (ro_committed _ _ R1) in E2.
  inversion E1; inversion E2; inversion E3. unfold select_workflows.
  rewrite takeZ_app by lia. rewrite dropZ_dropZ by lia. reflexivity.
Qed.

Lemma List_pages_compose_witness :
  [mkWorkflow 1 "a" 1 10; mkWorkflow 2 "b" 1 10; mkWorkflow 3 "c" 1 10]
  = [mkWorkflow 1 "a" 1 10] ++ [mkWorkflow 2 "b" 1 10; mkWorkflow 3 "c" 1 10].
Proof.
  apply (List_pages_compose 0 1 2 three_workflows
           (fst (List 0 1 three_workflows))
           (fst (List 1 2 (fst (List 0 1 three_workflows))))
           (fst (List 0 3 (fst (List 1 2 (fst (List 0 1 three_workflows))))))).
  - reflexivity.
  - reflexivity.
  - vm_compute. reflexivity.
  - vm_compute. reflexivity.
  - vm_compute. reflexivity.
Defined.

Lemma dropZ_keys_above (l : list Workflow) (n base : Z) :
  ascending_by_id l -> NoDup (map w_id l) -> (forall w, In w l -> base <= w_id w) ->
  0 <= n ->
  forall w, In w (dropZ n l) -> base + n <= w_id w.
Proof.
  unfold ascending_by_id. intros Hs. revert n base.
  induction Hs as [|x r Hs IH Hx]; intros n base Hnd Hb Hn w Hw.
  - destruct Hw.
  - cbn [dropZ] in Hw. destruct (n <=? 0) eqn:En.
    + apply Z.leb_le in En. specialize (Hb w Hw). lia.
    + apply Z.leb_gt in En. simpl in Hnd. inversion Hnd as [|k ks Hnotin Hnd']; subst.
      replace (base + n) with ((base + 1) + (n - 1)) by lia.
      apply IH; [assumption | | lia | assumption].
      intros y Hy. rewrite Forall_forall in Hx. specialize (Hx y Hy).
      assert (w_id y <> w_id x).
      { intros E. apply Hnotin. rewrite <- E. apply in_map, Hy. }
      specialize (Hb x (or_introl eq_refl)). lia.
Qed.

(** X6.  Where the ids are distinct and start at 1, every workflow a
    successful [List(offset, limit)] returns has an id above [offset]: at
    least [offset] smaller ids were skipped before it. *)
Theorem List_ids_above_offset :
  forall (offset limit : Z) (s s' : World) (l : list Workflow),
    keys_distinct_positive (wf_workflows (committed s)) ->
    List offset limit s = (s', Ret (Some l, None)) ->
    forall w, In w l -> offset < w_id w.
Proof.
  intros offset limit s s' l [Hnd Hpos] H w Hw.
  apply List_success in H. destruct H as (Ho & _ & E). inversion E; subst l. clear E.
  unfold select_workflows in Hw. apply takeZ_In in Hw.
  pose proof (order_by_id_perm (wf_workflows (committed s))) as P.
  assert (1 + offset <= w_id w); [|lia].
  apply (dropZ_keys_above (order_by_id (wf_workflows (committed s))) offset 1).
  - apply order_by_id_sorted.
  - eapply Permutation_NoDup; [|exact Hnd].
    apply Permutation_map, Permutation_sym, P.
  - intros y Hy. apply Hpos. eapply Permutation_in; [exact P | exact Hy].
  - exact Ho.
  - exact Hw.
Qed.

Lemma List_ids_above_offset_witness : 2 < w_id (mkWorkflow 3 "c" 1 10).
Proof.
  apply (List_ids_above_offset 2 0 three_workflows
           (set_trace [OpQuery (SelectWorkflows MaxInt64 2)] three_workflows)
           [mkWorkflow 3 "c" 1 10]).
  - split.
    + repeat constructor; simpl; intuition discriminate.
    + intros w [<-|[<-|[<-|[]]]]; simpl; lia.
  - vm_compute. reflexivity.
  - left. reflexivity.
Defined.

Lemma Get_run (id : WorkflowID) (s : World) :
  faults s = [] ->
  Get id s
  = (set_trace (trace s ++ [OpQuery (SelectWorkflow id)]) s,
     Ret (match find (fun w => w_id w =? id) (wf_workflows (committed s)) with
          | Some row => (Some (mkWorkflow id (w_name row) (w_dtype row) (w_bstate row)), None)
          | None => (None, Some sql_ErrNoRows)
          end)).
Proof.
  intros Hf. unfold Get, bind, DB_QueryRow_Scan, bind, log, modify, fault, gets, ret.
  simpl. rewrite Hf. simpl.
  destruct (find (fun w => w_id w =? id) (wf_workflows (committed s))); reflexivity.
Qed.

(** X7.  [Get] returns either a workflow and no error, or an error and nil.
    The workflow it returns carries the id that was asked for and is one of
    the stored workflows. *)
Theorem Get_result :
  forall (id : WorkflowID) (s s' : World) (r : option Workflow) (err : option error),
    Get id s = (s', Ret (r, err)) ->
    (err = None ->
     exists w, r = Some w /\ ID w = id /\ In w (wf_workflows (committed s)))
    /\ (err <> None -> r = None).
Proof.
  intros id s s' r err H. unfold Get in H.
  apply bind_inv in H. destruct H as ([elem e] & s1 & HQ & H).
  assert (HE : e = None ->
               exists row, In row (wf_workflows (committed s)) /\ w_id row = id
                           /\ elem = mkWorkflow 0 (w_name row) (w_dtype row) (w_bstate row)).
  { intros ->.
    unfold DB_QueryRow_Scan, bind, log, modify, fault, gets, ret in HQ. simpl in HQ.
    destruct (faults s) as [|[|] fs]; simpl in HQ; try discriminate;
      (destruct (find (fun w => w_id w =? id) (wf_workflows (committed s)))
         as [row|] eqn:F; try discriminate;
       inversion HQ; subst; apply find_some in F; destruct F as [Hin Hid];
       apply Z.eqb_eq in Hid; exists row; auto). }
  destruct e as [x|]; inversion H; subst.
  - split; [discriminate | reflexivity].
  - split; [|congruence]. intros _.
    destruct (HE eq_refl) as (row & Hin & Hid & ->).
    exists row. split; [|split; [exact Hid | exact Hin]].
    destruct row; simpl in *. subst. reflexivity.
Qed.

Lemma Get_result_witness :
  (exists w, Some (mkWorkflow 2 "b" 1 10) = Some w /\ ID w = 2
             /\ In w (wf_workflows (committed three_workflows))).
Proof.
  refine (proj1 (Get_result 2 three_workflows
                   (set_trace [OpQuery (SelectWorkflow 2)] three_workflows)
                   (Some (mkWorkflow 2 "b" 1 10)) None _) eq_refl).
  vm_compute. reflexivity.
Defined.

Lemma find_by_key (l : list Workflow) (w : Workflow) :
  NoDup (map w_id l) -> In w l -> find (fun x => w_id x =? w_id w) l = Some w.
Proof.
  induction l as [|y r IH]; simpl; intros Hnd Hin; [destruct Hin|].
  inversion Hnd as [|k ks Hnotin Hnd']; subst.
  destruct Hin as [->|Hin].
  - rewrite Z.eqb_refl. reflexivity.
  - destruct (w_id y =? w_id w) eqn:E.
    + apply Z.eqb_eq in E. exfalso. apply Hnotin. rewrite E. apply in_map, Hin.
    + apply IH; assumption.
Qed.

(** X8.  Lookup by key: where the ids are distinct and the store does not
    fail, [Get] of the id of a stored workflow returns that workflow. *)
Theorem Get_finds_stored :
  forall (w : Workflow) (s : World),
    faults s = [] ->
    NoDup (map w_id (wf_workflows (committed s))) ->
    In w (wf_workflows (committed s)) ->
    snd (Get (ID w) s) = Ret (Some w, None).
Proof.
  intros w s Hf Hnd Hin. rewrite Get_run by assumption. simpl.
  unfold ID. rewrite (find_by_key _ _ Hnd Hin). destruct w; reflexivity.
Qed.

Lemma Get_finds_stored_witness :
  snd (Get (ID (mkWorkflow 3 "c" 1 10)) three_workflows)
  = Ret (Some (mkWorkflow 3 "c" 1 10), None).
Proof.
  apply (Get_finds_stored (mkWorkflow 3 "c" 1 10) three_workflows).
  - reflexivity.
  - repeat constructor; simpl; intuition discriminate.
  - simpl. auto.
Defined.

(** X9.  A missing key: where no stored workflow has the id and the store does
    not fail, [Get] returns nil with [sql.ErrNoRows], having made its one
    query. *)
Theorem Get_missing :
  forall (id : WorkflowID) (s : World),
    faults s = [] ->
    (forall w, In w (wf_workflows (committed s)) -> w_id w <> id) ->
    Get id s
    = (set_trace (trace s ++ [OpQuery (SelectWorkflow id)]) s,
       Ret (None, Some sql_ErrNoRows)).
Proof.
  intros id s Hf Hno. rewrite Get_run by assumption.
  destruct (find (fun w => w_id w =? id) (wf_workflows (committed s))) as [row|] eqn:F.
  - apply find_some in F. destruct F as [Hin Hid]. apply Z.eqb_eq in Hid.
    exfalso. exact (Hno row Hin Hid).
  - reflexivity.
Qed.

Lemma Get_missing_witness :
  Get 7 three_workflows
  = (set_trace [OpQuery (SelectWorkflow 7)] three_workflows,
     Ret (None, Some sql_ErrNoRows)).
Proof.
  apply (Get_missing 7 three_workflows).
  - reflexivity.
  - intros w [<-|[<-|[<-|[]]]]; simpl; discriminate.
Defined.

(** ** [New] in a transaction of the caller, and the way back through [Get] *)

Lemma run_InsertWorkflow_ok (nm : string) (dt : DocTypeID) (st : DocStateID)
      (T T' : Tables) (k : Z) :
  run_stmt (InsertWorkflow nm dt st) T = (T', k, None) ->
  k = next_id (map w_id (wf_workflows T))
  /\ T' = with_workflow T (mkWorkflow k nm dt st).
Proof.
  simpl. destruct (workflow_name_taken nm T); intros H; inversion H. auto.
Qed.

Lemma Tx_Exec_trace (t : TxID) (q : Stmt) (s : World) :
  trace (fst (Tx_Exec (Some t) q s)) = trace s ++ [OpExec t q].
Proof.
  unfold Tx_Exec, bind, log, modify, gets, fault, ret. simpl.
  destruct (find_tx t (open_txs s)) as [T|]; simpl; [|reflexivity].
  destruct (faults s) as [|[|] fs]; simpl; try reflexivity;
    destruct (run_stmt q T) as [[T' k] [e|]]; reflexivity.
Qed.

Lemma LastInsertId_trace (res : option Result) (s : World) :
  trace (fst (Result_LastInsertId res s)) = trace s.
Proof.
  destruct res as [r|]; [|reflexivity].
  unfold Result_LastInsertId, bind, fault, ret.
  destruct (faults s) as [|[|] fs]; reflexivity.
Qed.

(** What [New] does on a transaction, in full. *)
Lemma New_in_tx_run (t : TxID) (name : string) (dtype : DocTypeID) (state : DocStateID)
      (s : World) :
  TrimSpace name <> EmptyString ->
  exists s' v err,
    New (Some t) name dtype state s = (s', Ret (v, err))
    /\ trace s' = trace s ++ [OpExec t (InsertWorkflow (TrimSpace name) dtype state)]
    /\ (err = None ->
        exists T,
          find_tx t (open_txs s) = Some T
          /\ v = next_id (map w_id (wf_workflows T))
          /\ find_tx t (open_txs s')
             = Some (with_workflow T (mkWorkflow v (TrimSpace name) dtype state))).
Proof.
  intros Hname. unfold New.
  replace (String.eqb (TrimSpace name) EmptyString) with false
    by (symmetry; apply String.eqb_neq; exact Hname).
  cbn [tx_prologue].
  pose proof (Tx_Exec_trace t (InsertWorkflow (TrimSpace name) dtype state) s) as Ht.
  destruct (Tx_Exec_returns t (InsertWorkflow (TrimSpace name) dtype state) s)
    as (s1 & res & err & E1 & Hok1).
  rewrite E1 in Ht. simpl in Ht.
  rewrite (bind_ret_run _ _ _ _ _ E1). destruct err as [e|].
  { do 3 eexists. split; [reflexivity|]. split; [exact Ht | discriminate]. }
  destruct (Hok1 eq_refl) as (T & T' & k & F & R & -> & F1).
  apply run_InsertWorkflow_ok in R. destruct R as [Hk ->].
  pose proof (LastInsertId_trace (Some (mkResult k)) s1) as Ht2.
  destruct (LastInsertId_returns (mkResult k) s1) as (s2 & v & err & E2 & O2 & Hv).
  rewrite E2 in Ht2. simpl in Ht2.
  rewrite (bind_ret_run _ _ _ _ _ E2). destruct err as [e|].
  { do 3 eexists. split; [reflexivity|]. split; [congruence | discriminate]. }
  rewrite (Hv eq_refl). simpl.
  exists s2, k, None. split; [reflexivity|]. split; [congruence|].
  intros _. exists T. split; [exact F|]. split; [exact Hk|].
  rewrite O2. exact F1.
Qed.

(** X10.  In a transaction [t] of the caller and with a name that is not
    blank, [New] always returns, having executed exactly one statement on
    [t]: the insert of the trimmed name with the document type and the begin
    state.  When it succeeds, the tables of [t] have gained exactly the row
    made of the id returned, the trimmed name, the document type and the
    begin state. *)
Theorem New_in_caller_transaction :
  forall (t : TxID) (name : string) (dtype : DocTypeID) (state : DocStateID) (s : World),
    TrimSpace name <> EmptyString ->
    exists s' v err,
      New (Some t) name dtype state s = (s', Ret (v, err))
      /\ trace s' = trace s ++ [OpExec t (InsertWorkflow (TrimSpace name) dtype state)]
      /\ (err = None ->
          exists T,
            find_tx t (open_txs s) = Some T
            /\ find_tx t (open_txs s')
               = Some (with_workflow T (mkWorkflow v (TrimSpace name) dtype state))).
Proof.
  intros t name dtype state s Hname.
  destruct (New_in_tx_run t name dtype state s Hname) as (s' & v & err & E & Ht & Hok).
  exists s', v, err. split; [exact E|]. split; [exact Ht|].
  intros He. destruct (Hok He) as (T & F & _ & F'). exists T. auto.
Qed.

Lemma New_in_caller_transaction_witness :
  exists s' v err,
    New (Some 0%nat) " acme.invoice " 1 10 (fst (DB_Begin empty_world))
    = (s', Ret (v, err))
    /\ trace s' = trace (fst (DB_Begin empty_world))
                  ++ [OpExec 0%nat (InsertWorkflow (TrimSpace " acme.invoice ") 1 10)]
    /\ (err = None ->
        exists T,
          find_tx 0%nat (open_txs (fst (DB_Begin empty_world))) = Some T
          /\ find_tx 0%nat (open_txs s')
             = Some (with_workflow T (mkWorkflow v (TrimSpace " acme.invoice ") 1 10))).
Proof.
  apply (New_in_caller_transaction 0%nat " acme.invoice " 1 10 (fst (DB_Begin empty_world))).
  vm_compute. discriminate.
Defined.

Lemma Tx_Commit_ok (t : TxID) (s s' : World) :
  Tx_Commit (Some t) s = (s', Ret None) ->
  exists T, find_tx t (open_txs s) = Some T /\ committed s' = T.
Proof.
  unfold Tx_Commit, bind, log, modify, gets, fault, ret. simpl.
  destruct (find_tx t (open_txs s)) as [T|]; simpl; [|discriminate].
  destruct (faults s) as [|[|] fs]; simpl; intros H; inversion H; subst;
    exists T; auto.
Qed.

Lemma next_id_above (ids : list Z) (x : Z) : In x ids -> x < next_id ids.
Proof.
  unfold next_id. induction ids as [|y r IH]; simpl; intros H; [destruct H|].
  destruct H as [->|H]; [lia|]. specialize (IH H). lia.
Qed.

Lemma find_appended (l : list Workflow) (w : Workflow) :
  (forall x, In x l -> w_id x < w_id w) ->
  find (fun x => w_id x =? w_id w) (l ++ [w]) = Some w.
Proof.
  induction l as [|y r IH]; simpl; intros H.
  - rewrite Z.eqb_refl. reflexivity.
  - replace (w_id y =? w_id w) with false.
    + apply IH. intros x Hx. apply H. auto.
    + symmetry. apply Z.eqb_neq. specialize (H y (or_introl eq_refl)). lia.
Qed.

(** X11.  Round trip: a workflow created by [New] in a transaction of the
    caller is, once that transaction has been committed, what [Get] returns
    for the id [New] gave (where the store does not fail): the id, the
    trimmed name, the document type and the begin state. *)
Theorem New_commit_Get :
  forall (t : TxID) (name : string) (dtype : DocTypeID) (state : DocStateID)
         (s s1 s2 : World) (id : WorkflowID),
    New (Some t) name dtype state s = (s1, Ret (id, None)) ->
    Tx_Commit (Some t) s1 = (s2, Ret None) ->
    faults s2 = [] ->
    snd (Get id s2) = Ret (Some (mkWorkflow id (TrimSpace name) dtype state), None).
Proof.
  intros t name dtype state s s1 s2 id HN HC Hf.
  assert (Hname : TrimSpace name <> EmptyString).
  { intros E. unfold New in HN. rewrite E in HN. discriminate. }
  destruct (New_in_tx_run t name dtype state s Hname) as (s' & v & err & E & _ & Hok).
  rewrite HN in E. inversion E; subst s' v err. clear E.
  destruct (Hok eq_refl) as (T & _ & Hid & F1).
  apply Tx_Commit_ok in HC. destruct HC as (T1 & F1' & HT).
  assert (HT' : committed s2
                = with_workflow T (mkWorkflow id (TrimSpace name) dtype state))
    by congruence.
  rewrite Get_run by exact Hf. rewrite HT'. simpl.
  pose proof (find_appended (wf_workflows T)
                (mkWorkflow id (TrimSpace name) dtype state)) as Hfind.
  simpl in Hfind. rewrite Hfind.
  - reflexivity.
  - intros x Hx. rewrite Hid. apply next_id_above, in_map, Hx.
Qed.

Lemma New_commit_Get_witness :
  snd (Get 1 (fst (Tx_Commit (Some 0%nat)
                     (fst (New (Some 0%nat) " acme.invoice " 1 10
                               (fst (DB_Begin empty_world)))))))
  = Ret (Some (mkWorkflow 1 (TrimSpace " acme.invoice ") 1 10), None).
Proof.
  apply (New_commit_Get 0%nat " acme.invoice " 1 10 (fst (DB_Begin empty_world))
           (fst (New (Some 0%nat) " acme.invoice " 1 10 (fst (DB_Begin empty_world))))).
  - vm_compute. reflexivity.
  - vm_compute. reflexivity.
  - vm_compute. reflexivity.
Defined.

(** ** [ApplyEvent]: its checks, and what a success means *)

(** X12.  The argument checks of [ApplyEvent] come first, for any transaction
    argument and whatever node.go does: a nil event is refused as such (also
    when there is no recipient); an event given without recipients is
    refused for that, without the event being read (whatever its status and
    type).  In both cases the world is left as it was. *)
Theorem ApplyEvent_argument_checks :
  forall (G : DocTypeID -> DocStateID -> M (option Node * option error))
         (A : option Node -> option TxID -> option EventPtr -> list GroupID ->
              M (DocStateID * option error))
         (w : Workflow) (otx : option TxID) (event : option EventPtr)
         (recipients : list GroupID) (s : World),
    (event = None ->
     ApplyEvent G A w otx event recipients s = (s, Ret (0, Some errEventNil)))
    /\ (event <> None -> recipients = [] ->
        ApplyEvent G A w otx event recipients s = (s, Ret (0, Some errNoRecipients))).
Proof.
  intros. split.
  - intros ->. reflexivity.
  - intros He ->. destruct event as [p|]; [reflexivity | congruence].
Qed.

Lemma ApplyEvent_argument_checks_witness :
  Workflow_ApplyEvent acme_invoice None None [] acme_world
  = (acme_world, Ret (0, Some errEventNil))
  /\ Workflow_ApplyEvent acme_invoice None (Some 5%nat) [] acme_world
     = (acme_world, Ret (0, Some errNoRecipients)).
Proof.
  split.
  - apply (proj1 (ApplyEvent_argument_checks GetByState applyEvent acme_invoice None
                    None [] acme_world)).
    reflexivity.
  - apply (proj2 (ApplyEvent_argument_checks GetByState applyEvent acme_invoice None
                    (Some 5%nat) [] acme_world)).
    + discriminate.
    + reflexivity.
Defined.

(** X13.  When the node lookup fails, [ApplyEvent] returns its error as it
    is, with state 0, and stops there: the world is the one the lookup left,
    so no transaction has been begun, also when the caller supplied none. *)
Theorem ApplyEvent_lookup_failure :
  forall (G : DocTypeID -> DocStateID -> M (option Node * option error))
         (A : option Node -> option TxID -> option EventPtr -> list GroupID ->
              M (DocStateID * option error))
         (w : Workflow) (otx : option TxID) (p : EventPtr) (e : DocEvent)
         (recipients : list GroupID) (s s1 : World) (n : option Node) (x : error),
    points_to s p e ->
    recipients <> [] ->
    ev_status e <> EventStatusApplied ->
    ev_dtype e = w_dtype w ->
    G (w_dtype w) (ev_state e) s = (s1, Ret (n, Some x)) ->
    ApplyEvent G A w otx (Some p) recipients s = (s1, Ret (0, Some x)).
Proof.
  intros G A w otx p e recipients s s1 n x Hp Hr Hs Hd HG. unfold ApplyEvent.
  rewrite (length_eqb_nonempty _ Hr).
  rewrite (bind_ret_run _ _ _ _ _ (load_points_to _ _ _ Hp)).
  rewrite (EventStatus_eqb_neq _ _ Hs).
  replace (w_dtype w =? ev_dtype e) with true by (symmetry; apply Z.eqb_eq; congruence).
  cbn [negb]. rewrite (bind_ret_run _ _ _ _ _ HG). reflexivity.
Qed.

Lemma ApplyEvent_lookup_failure_witness :
  Workflow_ApplyEvent acme_invoice None (Some 0%nat) [7] no_node_world
  = (set_trace [OpQuery (SelectNode 1 10)] no_node_world, Ret (0, Some ErrNodeNotFound)).
Proof.
  apply (ApplyEvent_lookup_failure GetByState applyEvent acme_invoice None 0%nat
           (mkDocEvent 1 1 10 1 EventStatusCreated) [7] no_node_world
           (set_trace [OpQuery (SelectNode 1 10)] no_node_world) None ErrNodeNotFound).
  - reflexivity.
  - discriminate.
  - discriminate.
  - reflexivity.
  - vm_compute. reflexivity.
Defined.

(** X14.  What a success of [ApplyEvent] means, whatever node.go does: the
    caller supplied a transaction, the event is not nil, there is a
    recipient, the event was not Applied and is of the workflow's document
    type, the node lookup succeeded, and the state returned and the world
    are those of [n.applyEvent] run on the caller's transaction. *)
Theorem ApplyEvent_success_means :
  forall (G : DocTypeID -> DocStateID -> M (option Node * option error))
         (A : option Node -> option TxID -> option EventPtr -> list GroupID ->
              M (DocStateID * option error))
         (w : Workflow) (otx : option TxID) (event : option EventPtr)
         (recipients : list GroupID) (s s' : World) (v : DocStateID),
    ApplyEvent G A w otx event recipients s = (s', Ret (v, None)) ->
    exists t p e n s1,
      otx = Some t /\ event = Some p /\ recipients <> [] /\ points_to s p e
      /\ ev_status e <> EventStatusApplied /\ ev_dtype e = w_dtype w
      /\ G (w_dtype w) (ev_state e) s = (s1, Ret (n, None))
      /\ A n (Some t) (Some p) recipients s1 = (s', Ret (v, None)).
Proof.
  intros G A w otx event recipients s s' v H.
  destruct (ApplyEvent_success G A w otx event recipients s s' v H)
    as (t & p & e & n & s1 & -> & -> & Hp & HG & HA).
  exists t, p, e, n, s1.
  unfold ApplyEvent in H.
  destruct recipients as [|g rs]; [discriminate|]. cbn [List.length Nat.eqb] in H.
  rewrite (bind_ret_run _ _ _ _ _ (load_points_to _ _ _ Hp)) in H.
  destruct (EventStatus_eqb (ev_status e) EventStatusApplied) eqn:Es; [discriminate|].
  destruct (w_dtype w =? ev_dtype e) eqn:Ed; [|discriminate].
  apply Z.eqb_eq in Ed.
  repeat split; try assumption; try congruence.
  intros E. apply EventStatus_eqb_eq in E. congruence.
Qed.

Lemma ApplyEvent_success_means_witness :
  exists t p e n s1,
    Some 0%nat = Some t /\ Some 0%nat = Some p /\ [7] <> [] /\ points_to acme_in_tx p e
    /\ ev_status e <> EventStatusApplied /\ ev_dtype e = w_dtype acme_invoice
    /\ GetByState (w_dtype acme_invoice) (ev_state e) acme_in_tx = (s1, Ret (n, None))
    /\ applyEvent n (Some t) (Some p) [7] s1
       = (fst (Workflow_ApplyEvent acme_invoice (Some 0%nat) (Some 0%nat) [7] acme_in_tx),
          Ret (20, None)).
Proof.
  apply (ApplyEvent_success_means GetByState applyEvent acme_invoice (Some 0%nat)
           (Some 0%nat) [7] acme_in_tx).
  vm_compute. reflexivity.
Defined.

(** ** Without a transaction from the caller *)

(** X15.  Without a transaction from the caller, none of the three
    operations ever returns a value with a nil error (whatever node.go
    does), and [New] and [AddNode] never change what is committed: the
    final [return v, nil] lies behind a method call on the nil [tx]. *)
Theorem without_transaction_nothing_stored :
  forall (G : DocTypeID -> DocStateID -> M (option Node * option error))
         (A : option Node -> option TxID -> option EventPtr -> list GroupID ->
              M (DocStateID * option error))
         (w : Workflow) (event : option EventPtr) (recipients : list GroupID)
         (name : string) (dtype : DocTypeID) (state : DocStateID) (wid : WorkflowID)
         (ntype : NodeType) (hash : list (DocActionID * DocStateID)) (s : World),
    not_ok (snd (ApplyEvent G A w None event recipients s))
    /\ not_ok (snd (New None name dtype state s))
    /\ not_ok (snd (AddNode None dtype state wid name ntype hash s))
    /\ committed (fst (New None name dtype state s)) = committed s
    /\ committed (fst (AddNode None dtype state wid name ntype hash s)) = committed s.
Proof.
  intros.
  destruct (nil_transaction_never_succeeds G A w event recipients name dtype state
              wid ntype hash s) as (H1 & H2 & H3).
  destruct (nil_transaction_commits_nothing name dtype state wid ntype hash s)
    as (H4 & H5).
  repeat split; assumption.
Qed.

Lemma find_remove_tx_other (t t' : TxID) (o : list (TxID * Tables)) :
  t' <> t -> find_tx t' (remove_tx t o) = find_tx t' o.
Proof.
  intros Hne. induction o as [|[u U] r IH]; simpl; [reflexivity|].
  destruct (Nat.eqb t u) eqn:E; simpl.
  - apply Nat.eqb_eq in E. subst u.
    destruct (Nat.eqb t' t) eqn:E'; [apply Nat.eqb_eq in E'; contradiction | exact IH].
  - destruct (Nat.eqb t' u); [reflexivity | exact IH].
Qed.

Lemma no_new_tx_refl (s : World) : no_new_tx s s.
Proof. intros t H. exact H. Qed.

Lemma no_new_tx_trans (a b c : World) : no_new_tx a b -> no_new_tx b c -> no_new_tx a c.
Proof. intros H1 H2 t H. apply H1, H2, H. Qed.

Lemma no_new_tx_same_open (s s' : World) : open_txs s' = open_txs s -> no_new_tx s s'.
Proof. intros E t H. rewrite <- E. exact H. Qed.

Lemma no_new_tx_update (t : TxID) (s : World) (T : Tables) :
  no_new_tx s (set_open_txs (update_tx t T (open_txs s)) s).
Proof.
  intros t' H. simpl in H. intros E. apply H. apply find_update_tx_none. exact E.
Qed.

Lemma no_new_tx_rollback (tx : option TxID) (s : World) :
  no_new_tx s (fst (Tx_Rollback tx s)).
Proof.
  destruct tx as [t|]; [|apply no_new_tx_refl].
  unfold Tx_Rollback, bind, log, modify, gets, fault, ret. simpl.
  destruct (find_tx t (open_txs s)) as [T|] eqn:F; simpl;
    [|apply no_new_tx_same_open; reflexivity].
  destruct (faults s) as [|b fs]; simpl; intros t' Ht'; simpl in Ht';
    (destruct (Nat.eq_dec t' t) as [->|Hne];
     [rewrite find_remove_tx_same in Ht'; congruence
     |rewrite find_remove_tx_other in Ht' by assumption; exact Ht']).
Qed.

(** The transaction the prologue begins is closed again by the deferred
    rollback, whatever the body did with the transactions it knew. *)
Lemma no_new_tx_prologue_nil {A : Type} (fail : error -> A) (rest : option TxID -> M A) :
  respects no_new_tx (rest None) ->
  respects no_new_tx (tx_prologue None fail rest).
Proof.
  intros Hr s. unfold tx_prologue, bind, DB_Begin, bind, fault, log, modify, gets, ret.
  assert (Hbegin : forall s0 : World,
             open_txs s0 = (next_tx s, committed s) :: open_txs s ->
             no_new_tx s (fst (defer (Tx_Rollback (Some (next_tx s))) (rest None) s0))).
  { intros s0 Ho. unfold defer. specialize (Hr s0).
    destruct (rest None s0) as [s2 r]. simpl in *.
    intros t' Ht'.
    pose proof (no_new_tx_rollback (Some (next_tx s)) s2 t' Ht') as H2.
    assert (Hne : t' <> next_tx s).
    { intros ->. revert Ht'.
      unfold Tx_Rollback, bind, log, modify, gets, fault, ret. simpl.
      destruct (find_tx (next_tx s) (open_txs s2)) as [T|] eqn:F; simpl.
      - destruct (faults s2); simpl; rewrite find_remove_tx_same; congruence.
      - congruence. }
    specialize (Hr t' H2). rewrite Ho in Hr. simpl in Hr.
    destruct (Nat.eqb t' (next_tx s)) eqn:E; [apply Nat.eqb_eq in E; contradiction|].
    exact Hr. }
  destruct (faults s) as [|[|] fs]; simpl.
  - apply Hbegin. reflexivity.
  - apply no_new_tx_same_open. reflexivity.
  - apply Hbegin. reflexivity.
Qed.

Lemma applyEvent_nil_tx (n : option Node) (event : option EventPtr)
      (recipients : list GroupID) (s : World) :
  fst (applyEvent n None event recipients s) = s.
Proof.
  unfold applyEvent. destruct n as [n|]; [|reflexivity].
  destruct event as [p|]; [|reflexivity].
  unfold bind, load. destruct (nth_error (heap s) p) as [e|]; [|reflexivity].
  destruct (lookup_action (ev_action e) (xforms n)); reflexivity.
Qed.

(** X16.  No transaction is left behind: whichever way [New], [AddNode] and
    [ApplyEvent] end (value, error or panic), with or without a transaction
    from the caller, every transaction open afterwards was open before the
    call.  The one the call may have begun itself has been rolled back. *)
Theorem no_transaction_left_open :
  forall (otx : option TxID) (w : Workflow) (event : option EventPtr)
         (recipients : list GroupID) (name : string) (dtype : DocTypeID)
         (state : DocStateID) (wid : WorkflowID) (ntype : NodeType)
         (hash : list (DocActionID * DocStateID)) (s : World),
    no_new_tx s (fst (New otx name dtype state s))
    /\ no_new_tx s (fst (AddNode otx dtype state wid name ntype hash s))
    /\ no_new_tx s (fst (Workflow_ApplyEvent w otx event recipients s)).
Proof.
  intros. destruct otx as [t|].
  - split; [|split].
    + apply (respects_New no_new_tx no_new_tx_refl no_new_tx_trans).
      * intros s0 fs. apply no_new_tx_same_open. reflexivity.
      * intros s0 q. apply no_new_tx_same_open. reflexivity.
      * intros s0 T. apply no_new_tx_update.
    + apply (respects_AddNode no_new_tx no_new_tx_refl no_new_tx_trans).
      * intros s0 fs. apply no_new_tx_same_open. reflexivity.
      * intros s0 q. apply no_new_tx_same_open. reflexivity.
      * intros s0 T. apply no_new_tx_update.
    + apply (respects_Workflow_ApplyEvent no_new_tx no_new_tx_refl no_new_tx_trans).
      * intros s0 fs. apply no_new_tx_same_open. reflexivity.
      * intros s0 q. apply no_new_tx_same_open. reflexivity.
      * intros s0 T. apply no_new_tx_update.
      * intros s0 q. apply no_new_tx_same_open. reflexivity.
      * intros s0 h. apply no_new_tx_same_open. reflexivity.
  - split; [|split].
    + unfold New. destruct (String.eqb (TrimSpace name) EmptyString);
        [apply no_new_tx_refl|].
      apply no_new_tx_prologue_nil. intros s1. apply no_new_tx_refl.
    + unfold AddNode. destruct (String.eqb (TrimSpace name) EmptyString);
        [apply no_new_tx_refl|].
      destruct (Nat.eqb (List.length hash) 0); [apply no_new_tx_refl|].
      apply no_new_tx_prologue_nil. intros s1. apply no_new_tx_refl.
    + revert s. change (respects no_new_tx (Workflow_ApplyEvent w None event recipients)).
      unfold Workflow_ApplyEvent, ApplyEvent.
      destruct event as [p|]; [|apply respects_ret, no_new_tx_refl].
      destruct (Nat.eqb (List.length recipients) 0);
        [apply respects_ret, no_new_tx_refl|].
      apply respects_bind; [apply no_new_tx_trans | apply respects_load, no_new_tx_refl |].
      intros e.
      destruct (EventStatus_eqb (ev_status e) EventStatusApplied);
        [apply respects_ret, no_new_tx_refl|].
      destruct (negb (w_dtype w =? ev_dtype e)); [apply respects_ret, no_new_tx_refl|].
      apply respects_bind; [apply no_new_tx_trans | |].
      * apply (respects_GetByState no_new_tx no_new_tx_refl no_new_tx_trans).
        -- intros s0 fs. apply no_new_tx_same_open. reflexivity.
        -- intros s0 q. apply no_new_tx_same_open. reflexivity.
      * intros [n [x|]]; [apply respects_ret, no_new_tx_refl|].
        apply no_new_tx_prologue_nil. intros s1.
        unfold bind. pose proof (applyEvent_nil_tx n (Some p) recipients s1) as E.
        destruct (applyEvent n None (Some p) recipients s1) as [s2 [[nstate [x|]]|]];
          simpl in E; subst s2; apply no_new_tx_refl.
Qed.

(** X17.  Without a transaction from the caller and past the argument checks,
    [New] and [AddNode] go one of two ways.  If [db.Begin] fails, they
    return its error with 0 and do nothing more.  If it succeeds, they panic
    on the first statement, sent to the nil [tx]; the transaction begun is
    rolled back by the deferred call and that is all that happens. *)
Theorem without_transaction_Begin_decides :
  forall (name : string) (dtype : DocTypeID) (state : DocStateID) (wid : WorkflowID)
         (ntype : NodeType) (hash : list (DocActionID * DocStateID))
         (s s1 : World) (tx' : option TxID) (err : option error),
    TrimSpace name <> EmptyString ->
    hash <> [] ->
    DB_Begin s = (s1, Ret (tx', err)) ->
    (forall e, err = Some e ->
               New None name dtype state s = (s1, Ret (0, Some e))
               /\ AddNode None dtype state wid name ntype hash s = (s1, Ret (0, Some e)))
    /\ (err = None ->
        New None name dtype state s = (fst (Tx_Rollback tx' s1), Panic)
        /\ AddNode None dtype state wid name ntype hash s
           = (fst (Tx_Rollback tx' s1), Panic)).
Proof.
  intros name dtype state wid ntype hash s s1 tx' err Hname Hhash HB.
  unfold New, AddNode.
  replace (String.eqb (TrimSpace name) EmptyString) with false
    by (symmetry; apply String.eqb_neq; exact Hname).
  rewrite (length_eqb_nonempty _ Hhash).
  unfold tx_prologue. rewrite !(bind_ret_run _ _ _ _ _ HB).
  split.
  - intros e ->. split; reflexivity.
  - intros ->. split; reflexivity.
Qed.

Lemma without_transaction_Begin_decides_witness :
  (New None "acme.invoice" 1 10 (set_faults [true] empty_world)
   = (set_trace [OpBeginFailed] empty_world, Ret (0, Some driver_ErrBadConn))
   /\ AddNode None 1 10 1 "start" "begin" [(1, 20)] (set_faults [true] empty_world)
      = (set_trace [OpBeginFailed] empty_world, Ret (0, Some driver_ErrBadConn)))
  /\ (New None "acme.invoice" 1 10 empty_world
      = (fst (Tx_Rollback (Some 0%nat) (fst (DB_Begin empty_world))), Panic)
      /\ AddNode None 1 10 1 "start" "begin" [(1, 20)] empty_world
         = (fst (Tx_Rollback (Some 0%nat) (fst (DB_Begin empty_world))), Panic)).
Proof.
  split.
  - refine (proj1 (without_transaction_Begin_decides "acme.invoice" 1 10 1 "begin"
                     [(1, 20)] (set_faults [true] empty_world)
                     (set_trace [OpBeginFailed] empty_world) None
                     (Some driver_ErrBadConn) _ _ _) driver_ErrBadConn eq_refl).
    + vm_compute. discriminate.
    + discriminate.
    + vm_compute. reflexivity.
  - refine (proj2 (without_transaction_Begin_decides "acme.invoice" 1 10 1 "begin"
                     [(1, 20)] empty_world (fst (DB_Begin empty_world)) (Some 0%nat)
                     None _ _ _) eq_refl).
    + vm_compute. discriminate.
    + discriminate.
    + vm_compute. reflexivity.
Defined.

(** ** The statements of [AddNode] *)

Lemma Tx_Exec_failed (t : TxID) (q : Stmt) (s s1 : World) (res : option Result)
      (e : error) :
  Tx_Exec (Some t) q s = (s1, Ret (res, Some e)) -> open_txs s1 = open_txs s.
Proof.
  unfold Tx_Exec, bind, log, modify, gets, fault, ret. simpl.
  destruct (find_tx t (open_txs s)) as [T|]; simpl.
  - destruct (faults s) as [|[|] fs]; simpl;
      try (intros H; inversion H; reflexivity);
      (destruct (run_stmt q T) as [[T' k] [e'|]]; intros H; inversion H; reflexivity).
  - intros H. inversion H. reflexivity.
Qed.

(** The loop, statement by statement: it has executed the first [k] inserts
    and the first [j] of them have put their row into the tables of [t].
    Either all went through, or the loop was left at the insert that was
    refused: the last one executed, one more than the rows put in. *)
Lemma insert_transitions_run (t : TxID) (dtype : DocTypeID) (state : DocStateID)
      (hash : list (DocActionID * DocStateID)) (s : World) (T : Tables) :
  find_tx t (open_txs s) = Some T ->
  exists s' err (k j : nat),
    insert_transitions (Some t) dtype state hash s = (s', Ret err)
    /\ trace s' = trace s ++ firstn k (transition_inserts t dtype state hash)
    /\ find_tx t (open_txs s')
       = Some (with_transitions T (firstn j (transition_rows dtype state hash)))
    /\ (k <= List.length hash)%nat
    /\ (err = None -> k = List.length hash /\ j = List.length hash)
    /\ (err <> None -> k = S j).
Proof.
  revert s T. induction hash as [|[da ds] r IH]; intros s T F.
  - exists s, None, 0%nat, 0%nat. simpl. rewrite app_nil_r, with_transitions_nil.
    repeat split; auto. congruence.
  - cbn [insert_transitions].
    pose proof (Tx_Exec_trace t (InsertTransition dtype state da ds) s) as Ht.
    destruct (Tx_Exec_returns t (InsertTransition dtype state da ds) s)
      as (s1 & res & err & E & Hok).
    rewrite E in Ht. simpl in Ht.
    rewrite (bind_ret_run _ _ _ _ _ E). destruct err as [e|].
    + exists s1, (Some e), 1%nat, 0%nat. simpl.
      rewrite (Tx_Exec_failed _ _ _ _ _ _ E), with_transitions_nil.
      repeat split; auto; try lia; discriminate.
    + destruct (Hok eq_refl) as (T0 & T' & k0 & F0 & R & _ & F1).
      rewrite F in F0. inversion F0; subst T0. clear F0.
      apply run_InsertTransition_ok in R. subst T'.
      destruct (IH s1 _ F1) as (s2 & err & k & j & E2 & Htr & Ftab & Hk & Hok2 & Herr2).
      exists s2, err, (S k), (S j). simpl.
      split; [exact E2|]. split; [rewrite Htr, Ht, <- app_assoc; reflexivity|].
      split; [rewrite Ftab, with_transitions_cons; reflexivity|].
      split; [lia|]. split.
      * intros He. destruct (Hok2 He). split; congruence.
      * intros He. rewrite (Herr2 He). reflexivity.
Qed.

(** X18.  In a transaction [t] of the caller and past the argument checks,
    [AddNode] always returns, and the statements it has executed are, in this
    order, the insert of the node and then the first [k] inserts of the
    transitions, in the order the map is iterated.  A successful call has
    executed all of them, one per entry.  A failed call stopped at the
    statement that failed, nothing being executed after it: either the
    insert of the node was refused ([k = 0], the tables of [t] as before), or
    the id of the new node could not be read ([k = 0], the tables of [t] with
    the Node row only), or the insert of a transition was refused, the last
    one executed ([k = j + 1], the tables of [t] with the Node row and the
    rows of the [j] transitions before it). *)
Theorem AddNode_statements :
  forall (t : TxID) (dtype : DocTypeID) (state : DocStateID) (wid : WorkflowID)
         (name : string) (ntype : NodeType)
         (hash : list (DocActionID * DocStateID)) (s : World),
    TrimSpace name <> EmptyString ->
    hash <> [] ->
    exists s' v err (k : nat),
      AddNode (Some t) dtype state wid name ntype hash s = (s', Ret (v, err))
      /\ (k <= List.length hash)%nat
      /\ trace s'
         = trace s
           ++ OpExec t (InsertNode dtype state wid (TrimSpace name) ntype)
              :: firstn k (transition_inserts t dtype state hash)
      /\ (err = None -> k = List.length hash)
      /\ (err <> None ->
          (k = 0%nat /\ find_tx t (open_txs s') = find_tx t (open_txs s))
          \/ (exists T id,
                 find_tx t (open_txs s) = Some T
                 /\ ((k = 0%nat
                      /\ find_tx t (open_txs s')
                         = Some (with_node T (mkNodeRow id dtype state wid
                                                        (TrimSpace name) ntype)))
                     \/ (exists j : nat,
                           k = S j
                           /\ find_tx t (open_txs s')
                              = Some (with_transitions
                                        (with_node T (mkNodeRow id dtype state wid
                                                                (TrimSpace name) ntype))
                                        (firstn j (transition_rows dtype state hash))))))).
Proof.
  intros t dtype state wid name ntype hash s Hname Hhash. unfold AddNode.
  replace (String.eqb (TrimSpace name) EmptyString) with false
    by (symmetry; apply String.eqb_neq; exact Hname).
  rewrite (length_eqb_nonempty _ Hhash). cbn [tx_prologue].
  pose proof (Tx_Exec_trace t (InsertNode dtype state wid (TrimSpace name) ntype) s) as Ht.
  destruct (Tx_Exec_returns t (InsertNode dtype state wid (TrimSpace name) ntype) s)
    as (s1 & res & err & E1 & Hok1).
  rewrite E1 in Ht. simpl in Ht.
  rewrite (bind_ret_run _ _ _ _ _ E1). destruct err as [e|].
  { exists s1, 0, (Some e), 0%nat. simpl.
    split; [reflexivity|]. split; [lia|]. split; [exact Ht|]. split; [discriminate|].
    intros _. left. split; [reflexivity|].
    rewrite (Tx_Exec_failed _ _ _ _ _ _ E1). reflexivity. }
  destruct (Hok1 eq_refl) as (T & T' & k0 & F & R & -> & F1).
  apply run_InsertNode_ok in R. subst T'.
  pose proof (LastInsertId_trace (Some (mkResult k0)) s1) as Ht2.
  destruct (LastInsertId_returns (mkResult k0) s1) as (s2 & v0 & err & E2 & O2 & Hv).
  rewrite E2 in Ht2. simpl in Ht2.
  rewrite (bind_ret_run _ _ _ _ _ E2). destruct err as [e|].
  { exists s2, 0, (Some e), 0%nat. simpl.
    split; [reflexivity|]. split; [lia|]. split; [congruence|]. split; [discriminate|].
    intros _. right. exists T, k0. split; [exact F|]. left.
    split; [reflexivity|]. rewrite O2. exact F1. }
  rewrite <- O2 in F1.
  destruct (insert_transitions_run t dtype state hash s2 _ F1)
    as (s3 & err & k & j & E3 & Htr & Ftab & Hk & Hok & Herr).
  rewrite (bind_ret_run _ _ _ _ _ E3). destruct err as [e|].
  - exists s3, 0, (Some e), k. simpl.
    split; [reflexivity|]. split; [exact Hk|].
    split; [rewrite Htr, Ht2, Ht, <- app_assoc; reflexivity|].
    split; [discriminate|].
    intros _. right. exists T, k0. split; [exact F|]. right.
    exists j. split; [apply Herr; discriminate | exact Ftab].
  - exists s3, v0, None, k. simpl.
    split; [reflexivity|]. split; [exact Hk|].
    split; [rewrite Htr, Ht2, Ht, <- app_assoc; reflexivity|].
    split; [intros _; apply Hok; reflexivity | congruence].
Qed.

(** The second of three transitions is a duplicate: the node and two
    transitions are sent, the third transition never is, and the tables of
    the transaction hold the Node row and the first Transition row. *)
Lemma AddNode_statements_witness :
  (AddNode (Some 0%nat) 1 10 1 "review" "linear" [(2, 30); (1, 40); (3, 50)]
           taken_transition
   = (mkWorld (mkTables [] [] [mkTransitionRow 1 10 1 20] [] [])
              [(0%nat, mkTables [] [mkNodeRow 1 1 10 1 "review" "linear"]
                                [mkTransitionRow 1 10 1 20; mkTransitionRow 1 10 2 30]
                                [] [])]
              1%nat []
              [OpExec 0%nat (InsertNode 1 10 1 "review" "linear");
               OpExec 0%nat (InsertTransition 1 10 2 30);
               OpExec 0%nat (InsertTransition 1 10 1 40)]
              [],
      Ret (0, Some (store_ErrDuplicate "wf_docstate_transitions"))))
  /\ (exists s' v err (k : nat),
        AddNode (Some 0%nat) 1 10 1 "review" "linear" [(2, 30); (1, 40); (3, 50)]
                taken_transition = (s', Ret (v, err))
        /\ (k <= 3)%nat
        /\ trace s'
           = trace taken_transition
             ++ OpExec 0%nat (InsertNode 1 10 1 (TrimSpace "review") "linear")
                :: firstn k (transition_inserts 0%nat 1 10 [(2, 30); (1, 40); (3, 50)])
        /\ (err = None -> k = 3%nat)
        /\ (err <> None ->
            (k = 0%nat /\ find_tx 0%nat (open_txs s')
                          = find_tx 0%nat (open_txs taken_transition))
            \/ (exists T id,
                   find_tx 0%nat (open_txs taken_transition) = Some T
                   /\ ((k = 0%nat
                        /\ find_tx 0%nat (open_txs s')
                           = Some (with_node T (mkNodeRow id 1 10 1 (TrimSpace "review")
                                                          "linear")))
                       \/ (exists j : nat,
                             k = S j
                             /\ find_tx 0%nat (open_txs s')
                                = Some (with_transitions
                                          (with_node T (mkNodeRow id 1 10 1
                                                                  (TrimSpace "review")
                                                                  "linear"))
                                          (firstn j (transition_rows 1 10
                                                       [(2, 30); (1, 40); (3, 50)])))))))).
Proof.
  split; [vm_compute; reflexivity|].
  apply (AddNode_statements 0%nat 1 10 1 "review" "linear" [(2, 30); (1, 40); (3, 50)]
           taken_transition).
  - vm_compute. discriminate.
  - discriminate.
Defined.
